(** * goat-shell: netcode core of the multiplayer platformer

    A shallow embedding of the authoritative room ([PlatformerRoom]), of the
    predictive scene ([PlatformerScene]) and of the code they share
    (constants, [InputData], [isGrounded], [applyJump]).

    Numbers.  JavaScript numbers that hold positions, velocities and forces
    are modelled as real numbers ([R]); tick counters and millisecond
    timestamps, which the code only ever increments, adds and compares, are
    modelled as integers ([Z]).  Where the code rounds a quotient or
    compares an accumulated duration with the fixed step, the outcome is
    decided by the binary64 arithmetic of JavaScript: the tick offset of
    [setupRTTCalculation] and the accumulator of [update] are computed on
    IEEE 754 doubles ([float]).

    Physics.  Matter.js is an external library.  The three services whose
    result depends on its internals (the narrow-phase collision test, the
    ray query and the integration step) are the fields of the class
    [Matter]; every definition and theorem is parametric in it.  Two facts
    about the library that do not depend on the geometry (a collision names
    its two bodies in the order of their ids, the engine keeps the id of a
    body) are the class [MatterLaws], assumed only where it is named.  The
    body setters used by the code ([setVelocity], [setPosition],
    [applyForce]) are modelled by their effect on the fields the code
    reads. *)

From Stdlib Require Import Floats.
From Stdlib Require Import Reals Lra ZArith Lia.
From stdpp Require Import gmap strings list sorting.

(* ===================================================================== *)
(** ** JavaScript numbers as doubles                                     *)
(* ===================================================================== *)

Module Double.
(** A whole number as a double. Whole numbers below 2^53 in magnitude,
    such as millisecond timestamps and their differences, are doubles
    exactly; the conversion is meant for those. *)
Definition of_Z (z : Z) : float :=
  match z with
  | Z0 => 0%float
  | Zpos _ => PrimFloat.of_uint63 (Uint63.of_Z z)
  | Zneg p => PrimFloat.opp (PrimFloat.of_uint63 (Uint63.of_Z (Zpos p)))
  end.

(** constants.ts: [FIXED_TIME_STEP = 1000 / 60], the double nearest to
    16.666... *)
Definition FIXED_TIME_STEP : float := (1000 / 60)%float.

(** [Math.round] of a finite double [(-1)^s * m * 2^e]: the integer
    floor(v + 1/2), computed exactly (halves are rounded up). The
    infinities and NaN, which [Math.round] returns as they are and which no
    finite round trip produces, are sent to 0. *)
Definition Math_round (v : float) : Z :=
  match Prim2SF v with
  | S754_finite s m e =>
      let n := if s then Zneg m else Zpos m in
      match e with
      | Zneg k => ((2 * n + 2 ^ Zpos k) / 2 ^ (Zpos k + 1))%Z
      | _ => (n * 2 ^ e)%Z
      end
  | _ => 0%Z
  end.
End Double.

(* ===================================================================== *)
(** ** Shared code: constants, types, physics utilities                  *)
(* ===================================================================== *)

Module Shared.
Local Open Scope R_scope.

(** constants.ts *)
Definition PLAYER_SPEED : R := 5.
Definition JUMP_FORCE : R := 0.15.
Definition PLAYER_SIZE : R := 32.
Definition SPAWN_X : R := 50.
Definition SPAWN_Y : R := 500.
Definition GROUND_Y : R := 590.
Definition GROUND_THRESHOLD : R := 2.
Definition MAP_WIDTH : R := 800.
Definition MAP_HEIGHT : R := 600.
Definition FIXED_TIME_STEP : R := 1000 / 60.

(** types.ts: [InputData] *)
Record InputData := mkInput {
  left : bool;
  right : bool;
  jump : bool;
  tick : Z
}.

(** types.ts: [PlayerState], the replicated fields of one entity. *)
Record PlayerState := mkPlayerState {
  ps_x : R;
  ps_y : R;
  ps_vx : R;
  ps_vy : R;
  ps_tick : Z;
  ps_isGrounded : bool;
  ps_lastProcessedTick : Z
}.

(** types.ts: [PlatformConfig] and [LevelConfig] *)
Record PlatformConfig := mkPlatform {
  pc_x : R;
  pc_y : R;
  pc_width : R;
  pc_height : R
}.

Record LevelConfig := mkLevel {
  lc_ground : PlatformConfig;
  lc_platforms : list PlatformConfig
}.

(** levelConfig.ts *)
Definition PLATFORMS : list PlatformConfig :=
  [ mkPlatform 200 400 200 20; mkPlatform 500 300 200 20 ].

Definition LEVEL_CONFIG : LevelConfig :=
  mkLevel (mkPlatform (MAP_WIDTH / 2) GROUND_Y MAP_WIDTH 20) PLATFORMS.

(** Matter.js vectors, bounds and bodies: the fields the code touches. *)
Record Vector := mkVector { x : R; y : R }.

Record Bounds := mkBounds { min : Vector; max : Vector }.

Record Body := mkBody {
  id : nat;
  position : Vector;
  velocity : Vector;
  force : Vector;
  bounds : Bounds;
  isStatic : bool
}.

(** What [Matter.Collision.collides] returns when two bodies overlap:
    the two bodies of the pair, named by their ids. *)
Record Collision := mkCollision { bodyA : nat; bodyB : nat }.

(** The services of the physics library whose results depend on its
    internals. [Engine_update statics bodies delta b] is the state of the
    body [b] after the world made of [statics] and [bodies] has been
    advanced by [delta]. *)
Class Matter := {
  Collision_collides : Body -> Body -> option Collision;
  Query_ray : list Body -> Vector -> Vector -> list Collision;
  Engine_update : list Body -> list Body -> R -> Body -> Body
}.

(** What holds of these services whatever the geometry.
    [Collision.collides(bodyA, bodyB)] names the pair in the order of the
    ids ([collision.bodyA = bodyA.id < bodyB.id ? bodyA : bodyB], and the
    other one as [collision.bodyB]); [Engine.update] moves the bodies it is
    given and leaves their ids alone. *)
Class MatterLaws (M : Matter) : Prop := {
  collides_orders_pair : forall a b c,
    Collision_collides a b = Some c ->
    bodyA c = (if Nat.ltb (id a) (id b) then id a else id b)
    /\ bodyB c = (if Nat.ltb (id a) (id b) then id b else id a);
  update_keeps_id : forall statics bodies delta b,
    id (Engine_update statics bodies delta b) = id b
}.

Definition vadd (u v : Vector) : Vector :=
  mkVector (x u + x v) (y u + y v).

Definition vsub (u v : Vector) : Vector :=
  mkVector (x u - x v) (y u - y v).

(** [Matter.Bodies.rectangle(x, y, width, height, options)] *)
Definition Bodies_rectangle (i : nat) (cx cy w h : R) (static : bool) : Body :=
  mkBody i (mkVector cx cy) (mkVector 0 0) (mkVector 0 0)
         (mkBounds (mkVector (cx - w / 2) (cy - h / 2))
                   (mkVector (cx + w / 2) (cy + h / 2)))
         static.

(** [Matter.Body.setVelocity(body, velocity)] *)
Definition Body_setVelocity (b : Body) (v : Vector) : Body :=
  mkBody (id b) (position b) v (force b) (bounds b) (isStatic b).

(** [Matter.Body.setPosition(body, position)]: the body and its bounds
    are translated. *)
Definition Body_setPosition (b : Body) (p : Vector) : Body :=
  let d := vsub p (position b) in
  mkBody (id b) p (velocity b) (force b)
         (mkBounds (vadd (min (bounds b)) d) (vadd (max (bounds b)) d))
         (isStatic b).

(** [Matter.Body.applyForce(body, position, force)]: the force is added to
    the body's accumulator (applied at the centre it adds no torque). *)
Definition Body_applyForce (b : Body) (at_ : Vector) (f : Vector) : Body :=
  mkBody (id b) (position b) (velocity b) (vadd (force b) f) (bounds b)
         (isStatic b).

(** Comparisons of numbers as booleans. *)
Definition Rltb (a b : R) : bool := if Rlt_dec a b then true else false.
Definition Rleb (a b : R) : bool := if Rle_dec a b then true else false.

Section PhysicsUtils.
Context `{M : Matter}.

(** The body of the [for] loop of [isGrounded]: the contact test against
    one ground body. *)
Definition contactOnTop (body groundBody : Body) : bool :=
  match Collision_collides body groundBody with
  | Some collides =>
      if Nat.eqb (bodyB collides) (id groundBody) then
        let playerBottom := y (position body) + PLAYER_SIZE / 2 in
        let groundTop :=
          y (position groundBody)
          - (y (max (bounds groundBody)) - y (min (bounds groundBody))) / 2 in
        Rleb playerBottom (groundTop + GROUND_THRESHOLD)
      else false
  | None => false
  end.

(** physicsUtils.ts: [isGrounded] *)
Definition isGrounded (body : Body) (groundBodies : list Body) : bool :=
  if existsb (contactOnTop body) groundBodies then true
  else
    let rayStart := mkVector (x (position body)) (y (position body)) in
    let rayEnd :=
      mkVector (x (position body)) (y (position body) + PLAYER_SIZE / 2 + 2) in
    let rayCollisions := Query_ray groundBodies rayStart rayEnd in
    if Nat.ltb 0 (length rayCollisions) then true
    else Rltb (Rabs (y (velocity body))) 0.1.
End PhysicsUtils.

(** physicsUtils.ts: [applyJump] *)
Definition applyJump (body : Body) (jumpForce : R) : Body :=
  Body_applyForce body (position body) (mkVector 0 (- jumpForce)).

(** physicsUtils.ts: [applyHorizontalMovement] *)
Definition applyHorizontalMovement (body : Body) (direction speed : R) : Body :=
  Body_setVelocity body (mkVector (direction * speed) (y (velocity body))).

(** physicsUtils.ts: [createPlayerBody] *)
Definition createPlayerBody (i : nat) (px py : R) : Body :=
  Bodies_rectangle i px py PLAYER_SIZE PLAYER_SIZE false.
End Shared.

(* ===================================================================== *)
(** ** The authoritative room: PlatformerRoom.ts                         *)
(* ===================================================================== *)

Module Server.
Import Shared.

(** [class Player extends Schema]: the replicated fields, the input queue
    and the Matter body. [playerBodies[sessionId]] and [player.body] are
    the same object (both are set in [onJoin]); the model keeps the one
    field [body]. *)
Record Player := mkPlayer {
  p_x : R;
  p_y : R;
  p_vx : R;
  p_vy : R;
  p_tick : Z;
  p_isGrounded : bool;
  lastProcessedTick : Z;
  inputQueue : list InputData;
  body : Body
}.

(** The replicated view of a player (the entity state seen by clients). *)
Definition entityState (p : Player) : PlayerState :=
  mkPlayerState (p_x p) (p_y p) (p_vx p) (p_vy p) (p_tick p)
                (p_isGrounded p) (lastProcessedTick p).

(** [class PlatformerRoom]: the room state, the static bodies, the tick
    counter. [nextId] stands for Matter's body id counter. *)
Record PlatformerRoom := mkRoom {
  mapWidth : R;
  mapHeight : R;
  players : gmap string Player;
  ground : Body;
  platforms : list Body;
  currentTick : Z;
  nextId : nat
}.

Definition fixedTimeStep : R := FIXED_TIME_STEP.

(** Messages the room sends back to a client. *)
Inductive Reply := Pong.

(** [onCreate]: map dimensions, engine, ground and platforms. *)
Definition platformBodies (i : nat) (l : list PlatformConfig) : list Body :=
  imap (fun k pf =>
          Bodies_rectangle (i + k) (pc_x pf) (pc_y pf) (pc_width pf)
                           (pc_height pf) true) l.

Definition onCreate : PlatformerRoom :=
  let g := lc_ground LEVEL_CONFIG in
  mkRoom MAP_WIDTH MAP_HEIGHT ∅
         (Bodies_rectangle 1 (pc_x g) (pc_y g) (pc_width g) (pc_height g) true)
         (platformBodies 2 (lc_platforms LEVEL_CONFIG))
         0
         (2 + length (lc_platforms LEVEL_CONFIG)).

(** [this.onMessage(0, (client, input) => ...)] *)
Definition onMessage0 (sessionId : string) (input : InputData)
    (room : PlatformerRoom) : PlatformerRoom :=
  match players room !! sessionId with
  | Some player =>
      let player' :=
        mkPlayer (p_x player) (p_y player) (p_vx player) (p_vy player)
                 (p_tick player) (p_isGrounded player)
                 (lastProcessedTick player)
                 (inputQueue player ++ [input])
                 (body player) in
      mkRoom (mapWidth room) (mapHeight room)
             (<[sessionId := player']> (players room))
             (ground room) (platforms room) (currentTick room) (nextId room)
  | None => room
  end.

(** [this.onMessage("ping", (client) => this.send(client, "pong", {}))] *)
Definition onPing (sessionId : string) (room : PlatformerRoom)
    : PlatformerRoom * Reply :=
  (room, Pong).

(** [player.inputQueue.sort((a, b) => a.tick - b.tick)]: an ascending,
    stable sort on the tick. *)
Fixpoint insertByTick (c : InputData) (l : list InputData) : list InputData :=
  match l with
  | [] => [c]
  | d :: l' =>
      if (tick c <=? tick d)%Z then c :: l else d :: insertByTick c l'
  end.

Definition sortByTick (l : list InputData) : list InputData :=
  foldr insertByTick [] l.

(** The body of the [while] loop, up to the watermark update: horizontal
    velocity from the flags, then the jump. *)
Definition applyQueuedInput (grounded : bool) (input : InputData)
    (body : Body) : Body :=
  let velocityX :=
    if left input then (- PLAYER_SPEED)%R
    else if right input then PLAYER_SPEED
    else 0%R in
  let body1 :=
    Body_setVelocity body (mkVector velocityX (y (velocity body))) in
  if jump input && grounded then applyJump body1 JUMP_FORCE else body1.

(** [while (queue.length > 0 && queue[0].tick <= currentTick) { shift ... }]
    on the state it touches: the body, the watermark and the queue. *)
Fixpoint drain (now : Z) (grounded : bool) (queue : list InputData)
    (body : Body) (lastProcessed : Z) : Body * Z * list InputData :=
  match queue with
  | [] => (body, lastProcessed, queue)
  | input :: rest =>
      if (tick input <=? now)%Z
      then drain now grounded rest
                 (applyQueuedInput grounded input body) (tick input)
      else (body, lastProcessed, queue)
  end.

(** [if (queue.length > 20) queue = queue.filter(i => i.tick > now - 10)] *)
Definition cleanQueue (now : Z) (queue : list InputData) : list InputData :=
  if Nat.ltb 20 (length queue)
  then
    let cutoffTick := (now - 10)%Z in
    filter (fun input => (tick input > cutoffTick)%Z) queue
  else queue.

Section Tick.
Context `{M : Matter}.

(** The callback of the first [players.forEach] of [fixedTick]. *)
Definition processInputs (now : Z) (groundBodies : list Body)
    (player : Player) : Player :=
  let grounded := isGrounded (body player) groundBodies in
  let sorted := sortByTick (inputQueue player) in
  let '(body', lastProcessed', queue') :=
    drain now grounded sorted (body player) (lastProcessedTick player) in
  mkPlayer (p_x player) (p_y player) (p_vx player) (p_vy player)
           (p_tick player) grounded lastProcessed'
           (cleanQueue now queue') body'.

(** The callback of the second [players.forEach]: the schema is
    refreshed from the body the engine has moved. *)
Definition writeBack (now : Z) (moved : Body) (player : Player) : Player :=
  mkPlayer (x (position moved)) (y (position moved))
           (x (velocity moved)) (y (velocity moved))
           now (p_isGrounded player) (lastProcessedTick player)
           (inputQueue player) moved.

(** [fixedTick(timeStep)] *)
Definition fixedTick (timeStep : R) (room : PlatformerRoom)
    : PlatformerRoom :=
  let now := (currentTick room + 1)%Z in
  let groundBodies := ground room :: platforms room in
  let processed := processInputs now groundBodies <$> players room in
  let bodies := (fun kv => body kv.2) <$> map_to_list processed in
  let synced :=
    (fun player =>
       writeBack now
         (Engine_update groundBodies bodies timeStep (body player))
         player) <$> processed in
  mkRoom (mapWidth room) (mapHeight room) synced
         (ground room) (platforms room) now (nextId room).
End Tick.

(** [onJoin(client, options)] *)
Definition onJoin (sessionId : string) (room : PlatformerRoom)
    : PlatformerRoom :=
  let body := createPlayerBody (nextId room) SPAWN_X SPAWN_Y in
  let player :=
    mkPlayer SPAWN_X SPAWN_Y 0 0 (currentTick room) false 0 [] body in
  mkRoom (mapWidth room) (mapHeight room)
         (<[sessionId := player]> (players room))
         (ground room) (platforms room) (currentTick room)
         (S (nextId room)).

(** [onLeave(client, consented)] *)
Definition onLeave (sessionId : string) (room : PlatformerRoom)
    : PlatformerRoom :=
  mkRoom (mapWidth room) (mapHeight room)
         (delete sessionId (players room))
         (ground room) (platforms room) (currentTick room) (nextId room).
End Server.

(* ===================================================================== *)
(** ** The predictive scene: PlatformerScene.ts                          *)
(* ===================================================================== *)

Module Client.
Import Shared.

(** The keys read by [fixedTick]. *)
Record Keys := mkKeys {
  key_a : bool;
  key_d : bool;
  key_space : bool;
  cursor_left : bool;
  cursor_right : bool;
  cursor_up : bool
}.

(** [class PlatformerScene]: the fields of the netcode. [currentPlayer] is
    the Matter sprite of the local player; its [x] and [y] are the
    position of its body. [room] tells whether the scene is connected. *)
Record PlatformerScene := mkScene {
  room : bool;
  currentPlayer : option Body;
  inputPayload : InputData;
  inputBuffer : list InputData;
  currentTick : Z;
  lastReconciledTick : Z;
  rtt : Z;
  serverTickOffset : Z;
  lastPingTime : Z;
  groundBodies : list Body
}.

Definition setPlayer (scene : PlatformerScene) (b : Body) : PlatformerScene :=
  mkScene (room scene) (Some b) (inputPayload scene) (inputBuffer scene)
          (currentTick scene) (lastReconciledTick scene) (rtt scene)
          (serverTickOffset scene) (lastPingTime scene) (groundBodies scene).

(** [Phaser.Math.Linear(p0, p1, t)] *)
Definition Phaser_Math_Linear (p0 p1 t : R) : R := ((p1 - p0) * t + p0)%R.

(** [Phaser.Math.Distance.Between(x1, y1, x2, y2)] *)
Definition Phaser_Math_Distance_Between (x1 y1 x2 y2 : R) : R :=
  sqrt ((x1 - x2) * (x1 - x2) + (y1 - y2) * (y1 - y2)).

(** [setupRTTCalculation]: the [pong] listener, run when [Date.now()]
    reads [endTime]. The quotient is a quotient of doubles. *)
Definition onPong (endTime : Z) (scene : PlatformerScene) : PlatformerScene :=
  let rtt' := (endTime - lastPingTime scene)%Z in
  let offset :=
    Double.Math_round
      (Double.of_Z rtt' / (2 * Double.FIXED_TIME_STEP))%float in
  mkScene (room scene) (currentPlayer scene) (inputPayload scene)
          (inputBuffer scene) (currentTick scene) (lastReconciledTick scene)
          rtt' offset (lastPingTime scene) (groundBodies scene).

(** [setupRTTCalculation]: the interval callback, run at time [now]; a
    [ping] is sent. *)
Definition sendPing (now : Z) (scene : PlatformerScene) : PlatformerScene :=
  mkScene (room scene) (currentPlayer scene) (inputPayload scene)
          (inputBuffer scene) (currentTick scene) (lastReconciledTick scene)
          (rtt scene) (serverTickOffset scene) now (groundBodies scene).

Section Prediction.
Context `{M : Matter}.

(** [isPlayerGrounded()] *)
Definition isPlayerGrounded (scene : PlatformerScene) : bool :=
  match currentPlayer scene with
  | None => false
  | Some body =>
      if Nat.eqb (length (groundBodies scene)) 0 then false
      else
        let rayLength := (PLAYER_SIZE / 2 + 2)%R in
        let startPoint := mkVector (x (position body)) (y (position body)) in
        let endPoint :=
          mkVector (x (position body)) (y (position body) + rayLength) in
        let collisions := Query_ray (groundBodies scene) startPoint endPoint in
        Nat.ltb 0 (length collisions)
        || Rltb (Rabs (y (velocity body))) 0.1
  end.

(** [applyInput(input)] *)
Definition applyInput (input : InputData) (scene : PlatformerScene)
    : PlatformerScene :=
  match currentPlayer scene with
  | None => scene
  | Some body =>
      let isPlayerGrounded := isPlayerGrounded scene in
      let velocityX :=
        if left input then (- PLAYER_SPEED)%R
        else if right input then PLAYER_SPEED
        else 0%R in
      let body1 :=
        Body_setVelocity body (mkVector velocityX (y (velocity body))) in
      let body2 :=
        if jump input && isPlayerGrounded then applyJump body1 JUMP_FORCE
        else body1 in
      setPlayer scene body2
  end.

(** [this.inputBuffer.forEach(input => this.applyInput(input))] *)
Definition replay (inputs : list InputData) (scene : PlatformerScene)
    : PlatformerScene :=
  foldl (fun s input => applyInput input s) scene inputs.

(** [reconcileWithServer(serverPlayer)] *)
Definition reconcileWithServer (serverPlayer : PlayerState)
    (scene : PlatformerScene) : PlatformerScene :=
  match currentPlayer scene with
  | None => scene
  | Some body =>
      let distance :=
        Phaser_Math_Distance_Between
          (x (position body)) (y (position body))
          (ps_x serverPlayer) (ps_y serverPlayer) in
      let lerpFactor := if Rltb 30 distance then 0.5%R else 0.2%R in
      let body1 :=
        Body_setPosition body
          (mkVector
             (Phaser_Math_Linear (x (position body)) (ps_x serverPlayer) lerpFactor)
             (Phaser_Math_Linear (y (position body)) (ps_y serverPlayer) lerpFactor)) in
      let body2 :=
        Body_setVelocity body1
          (mkVector
             (Phaser_Math_Linear (x (velocity body1)) (ps_vx serverPlayer) lerpFactor)
             (Phaser_Math_Linear (y (velocity body1)) (ps_vy serverPlayer) lerpFactor)) in
      let pending :=
        filter (fun input => (tick input > ps_lastProcessedTick serverPlayer)%Z)
               (inputBuffer scene) in
      let scene1 :=
        mkScene (room scene) (Some body2) (inputPayload scene) pending
                (currentTick scene) (lastReconciledTick scene) (rtt scene)
                (serverTickOffset scene) (lastPingTime scene)
                (groundBodies scene) in
      let scene2 := replay pending scene1 in
      mkScene (room scene2) (currentPlayer scene2) (inputPayload scene2)
              (inputBuffer scene2) (currentTick scene2)
              (ps_lastProcessedTick serverPlayer) (rtt scene2)
              (serverTickOffset scene2) (lastPingTime scene2)
              (groundBodies scene2)
  end.

(** The distance the reconciliation measures: from the position of the
    local player to the position the server reports. *)
Definition divergence (serverPlayer : PlayerState) (scene : PlatformerScene)
    : option R :=
  (fun body =>
     Phaser_Math_Distance_Between
       (x (position body)) (y (position body))
       (ps_x serverPlayer) (ps_y serverPlayer)) <$> currentPlayer scene.

(** The [onChange] listener of the local player. *)
Definition onChange (serverPlayer : PlayerState) (scene : PlatformerScene)
    : PlatformerScene :=
  if (lastReconciledTick scene <? ps_lastProcessedTick serverPlayer)%Z
  then reconcileWithServer serverPlayer scene
  else scene.

(** [fixedTick(time, delta)]: the new scene and the message sent. *)
Definition fixedTick (keys : Keys) (scene : PlatformerScene)
    : PlatformerScene * option InputData :=
  let now := (currentTick scene + 1)%Z in
  let left := key_a keys || cursor_left keys in
  let right := key_d keys || cursor_right keys in
  let jump := cursor_up keys || key_space keys in
  let adjustedTick := (now + serverTickOffset scene)%Z in
  let payload := mkInput left right jump adjustedTick in
  let buffer1 := inputBuffer scene ++ [payload] in
  let sent := if room scene then Some payload else None in
  let scene1 :=
    applyInput payload
      (mkScene (room scene) (currentPlayer scene) payload buffer1 now
               (lastReconciledTick scene) (rtt scene) (serverTickOffset scene)
               (lastPingTime scene) (groundBodies scene)) in
  let buffer2 :=
    if Nat.ltb 100 (length (inputBuffer scene1))
    then
      let cutoffTick := (adjustedTick - 50)%Z in
      filter (fun input => (tick input > cutoffTick)%Z) (inputBuffer scene1)
    else inputBuffer scene1 in
  (mkScene (room scene1) (currentPlayer scene1) (inputPayload scene1) buffer2
           (currentTick scene1) (lastReconciledTick scene1) (rtt scene1)
           (serverTickOffset scene1) (lastPingTime scene1)
           (groundBodies scene1),
   sent).

(** The scene when [create] has built the level and connected. *)
Definition created (level : list Body) : PlatformerScene :=
  mkScene true None (mkInput false false false 0) [] 0 0 0 0 0 level.

End Prediction.
End Client.


(* ===================================================================== *)
(** ** Executions of the room                                            *)
(* ===================================================================== *)

Module Run.
Import Shared Server.

(** A queue in ascending order of tick. *)
Definition ascending : list InputData -> Prop :=
  StronglySorted (fun a b => (tick a <= tick b)%Z).

(** The inputs the loop shifts off a queue, in the order it shifts them. *)
Fixpoint shifted (now : Z) (queue : list InputData) : list InputData :=
  match queue with
  | [] => []
  | input :: rest =>
      if (tick input <=? now)%Z then input :: shifted now rest else []
  end.

(** The inputs the step at tick [now] applies for a player. *)
Definition applied (now : Z) (player : Player) : list InputData :=
  shifted now (sortByTick (inputQueue player)).

Section Semantics.
Context `{M : Matter}.

(** The body the authoritative loop hands to the engine when it applies
    the commands [commands] in one step: the grounded flag is taken once,
    from the body at the start of the step. *)
Definition served (groundBodies : list Body) (body : Body)
    (commands : list InputData) : Body :=
  foldl (fun b input =>
           applyQueuedInput (isGrounded body groundBodies) input b)
        body commands.

(** What happens to a room: a command arrives, or a fixed step runs. *)
Inductive Event :=
| Message (sessionId : string) (input : InputData)
| Tick.

Definition handle (timeStep : R) (room : PlatformerRoom) (e : Event)
    : PlatformerRoom :=
  match e with
  | Message sessionId input => onMessage0 sessionId input room
  | Tick => fixedTick timeStep room
  end.

Definition run (timeStep : R) (events : list Event) (room : PlatformerRoom)
    : PlatformerRoom :=
  foldl (handle timeStep) room events.
End Semantics.

(** The watermark of an entity (0 when it has not joined). *)
Definition watermark (sessionId : string) (room : PlatformerRoom) : Z :=
  from_option lastProcessedTick 0%Z (players room !! sessionId).

(** The queue of an entity, in arrival order. *)
Definition queued (sessionId : string) (room : PlatformerRoom)
    : list InputData :=
  from_option inputQueue [] (players room !! sessionId).

(** The inputs the next step of the room applies for an entity, in the
    order it applies them. *)
Definition appliedNext (sessionId : string) (room : PlatformerRoom)
    : list InputData :=
  from_option (applied (currentTick room + 1)) [] (players room !! sessionId).



(** Two queues hold the same commands, those of one tick in the same
    order of arrival. *)
Definition sameCommands (queue1 queue2 : list InputData) : Prop :=
  forall t : Z,
    filter (fun input => tick input = t) queue1
    = filter (fun input => tick input = t) queue2.

(** What a fixed step reads of a player: the body, the watermark and the
    queued commands. The replicated fields are left out: the step
    overwrites them. *)
Definition samePlayer (player1 player2 : Player) : Prop :=
  body player1 = body player2
  /\ lastProcessedTick player1 = lastProcessedTick player2
  /\ sameCommands (inputQueue player1) (inputQueue player2).

(** Two rooms present the same world to a fixed step: the same tick
    counter, the same static bodies, the same sessions and, for each, the
    same body, watermark and commands. *)
Definition sameWorld (room1 room2 : PlatformerRoom) : Prop :=
  currentTick room1 = currentTick room2
  /\ ground room1 = ground room2
  /\ platforms room1 = platforms room2
  /\ forall sessionId,
       option_Forall2 samePlayer
         (players room1 !! sessionId) (players room2 !! sessionId).

Section Timely.
Context `{M : Matter}.

End Timely.
End Run.


(* ===================================================================== *)
(** ** Concrete worlds used to evaluate the code                         *)
(* ===================================================================== *)

Module Worlds.
Import Shared.

(** A physics library in which nothing touches anything and the engine
    leaves every body as it is. *)
Definition emptySpace : Matter :=
  {| Collision_collides := fun _ _ => None;
     Query_ray := fun _ _ _ => [];
     Engine_update := fun _ _ _ b => b |}.

(** A physics library in which every two bodies are in contact, the
    collision test naming the pair in the order of the ids as Matter does;
    no ray hits anything and the engine leaves every body as it is. *)
Definition contact : Matter :=
  {| Collision_collides :=
       fun a b =>
         Some (if Nat.ltb (id a) (id b) then mkCollision (id a) (id b)
               else mkCollision (id b) (id a));
     Query_ray := fun _ _ _ => [];
     Engine_update := fun _ _ _ b => b |}.

(** A room that one client, ["a"], has joined. *)
Definition joined : Server.PlatformerRoom :=
  Server.onJoin "a" Server.onCreate.

(** The player landing on the right corner of the first platform: centre at
    (310, 375), falling at 2 units per step. *)
Definition landing : Body :=
  Body_setVelocity (createPlayerBody 4 310 375) (mkVector 0 2).

(** The player at the apex of a jump, in mid-air. *)
Definition apex : Body := createPlayerBody 4 400 200.

Definition noKeys : Client.Keys :=
  Client.mkKeys false false false false false false.

(** A connected scene whose local player is the body [b]. *)
Definition sceneWith (b : Body) (buffer : list InputData) (now offset : Z)
    : Client.PlatformerScene :=
  Client.mkScene true (Some b) (mkInput false false false 0) buffer now 0 0
                 offset 0
                 (Server.ground Server.onCreate
                  :: Server.platforms Server.onCreate).




Definition jumpAt (t : Z) : InputData := mkInput false false true t.
Definition idleAt (t : Z) : InputData := mkInput false false false t.
Definition leftAt (t : Z) : InputData := mkInput true false false t.
Definition rightAt (t : Z) : InputData := mkInput false true false t.
Definition bothAt (t : Z) : InputData := mkInput true true false t.

(** Eight steps, then four commands with the ticks 5, 2, 9, 2 arrive. *)
Definition fourCommands : list InputData :=
  [idleAt 5; leftAt 2; idleAt 9; rightAt 2].

Definition fourArrive : list Run.Event :=
  replicate 8 Run.Tick ++ (Run.Message "a" <$> fourCommands).

(** The server reports the position (40, 0), first with watermark 1, then
    with watermark 2; the local player is predicted at the origin. *)
Definition reported (w : Z) : PlayerState := mkPlayerState 40 0 0 0 w true w.

Definition atOrigin : Client.PlatformerScene :=
  sceneWith (createPlayerBody 4 0 0) [] 0 0.

(** The scene of the client whose player is landing on the corner. *)
Definition landingScene : Client.PlatformerScene := sceneWith landing [] 0 0.

(** The room after ["a"] has sent "left" for tick 2 and then "jump" for
    tick 1, and the room after the same two commands have arrived in the
    other order. *)
Definition leftThenJump : Server.PlatformerRoom :=
  Server.onMessage0 "a" (jumpAt 1) (Server.onMessage0 "a" (leftAt 2) joined).

Definition jumpThenLeft : Server.PlatformerRoom :=
  Server.onMessage0 "a" (leftAt 2) (Server.onMessage0 "a" (jumpAt 1) joined).

Definition level : list Body :=
  Server.ground Server.onCreate :: Server.platforms Server.onCreate.

(** A scene that has run one hundred fixed steps with no key pressed. *)
Definition hundredSteps : Client.PlatformerScene :=
  Nat.iter 100
    (fun scene => (@Client.fixedTick emptySpace noKeys scene).1)
    (Client.setPlayer (Client.created level) apex).

(** A scene whose clock was set back by two seconds between a ping (sent
    when [Date.now()] read 2000) and its pong (received when it read 0),
    and the same scene one hundred fixed steps later. *)
Definition clockSetBack : Client.PlatformerScene :=
  Client.onPong 0
    (Client.sendPing 2000 (Client.setPlayer (Client.created level) apex)).

Definition clockSetBackHundred : Client.PlatformerScene :=
  Nat.iter 100
    (fun scene => (@Client.fixedTick emptySpace noKeys scene).1)
    clockSetBack.
End Worlds.

(* ===================================================================== *)
(** ** The life of a room: joins, leaves, commands, steps                *)
(* ===================================================================== *)

Module Lifecycle.
Import Shared Server.

(** What the framework delivers to a room. [Tick] is one iteration of the
    loop of the simulation interval. *)
Inductive Event :=
| Join (sessionId : string)
| Leave (sessionId : string)
| Message (sessionId : string) (input : InputData)
| Tick.

Section Events.
Context `{M : Matter}.

Definition handle (room : PlatformerRoom) (e : Event) : PlatformerRoom :=
  match e with
  | Join sessionId => onJoin sessionId room
  | Leave sessionId => onLeave sessionId room
  | Message sessionId input => onMessage0 sessionId input room
  | Tick => fixedTick fixedTimeStep room
  end.

Definition run (events : list Event) (room : PlatformerRoom)
    : PlatformerRoom :=
  foldl handle room events.
End Events.

(** The number of steps among events. *)
Fixpoint steps (events : list Event) : nat :=
  match events with
  | [] => O
  | Tick :: rest => S (steps rest)
  | _ :: rest => steps rest
  end.
End Lifecycle.

(* ===================================================================== *)
(** ** The frame loop of the scene and the remote players                *)
(* ===================================================================== *)

Module Frames.
Import Shared Client.

(** The values of the data manager of a sprite: [serverX] and [serverY],
    undefined until they are set. *)
Record Values := mkValues {
  serverX : option R;
  serverY : option R
}.

(** A sprite of [playerEntities]: its position and its data manager,
    which is null until the first [setData]. *)
Record Entity := mkEntity {
  e_x : R;
  e_y : R;
  data : option Values
}.

(** [onAdd] for a player other than the local one. *)
Definition onAddOther (sessionId : string) (player : PlayerState)
    (playerEntities : gmap string Entity) : gmap string Entity :=
  <[sessionId := mkEntity (ps_x player) (ps_y player) None]> playerEntities.

(** The [onChange] listener of a player other than the local one: the two
    calls of [setData] on the sprite the listener has captured. *)
Definition onChangeOther (sessionId : string) (player : PlayerState)
    (playerEntities : gmap string Entity) : gmap string Entity :=
  match playerEntities !! sessionId with
  | Some entity =>
      <[sessionId := mkEntity (e_x entity) (e_y entity)
                       (Some (mkValues (Some (ps_x player))
                                       (Some (ps_y player))))]>
        playerEntities
  | None => playerEntities
  end.

(** [onRemove] *)
Definition onRemove (sessionId : string)
    (playerEntities : gmap string Entity) : gmap string Entity :=
  delete sessionId playerEntities.

(** The body of the loop of [interpolateOtherPlayers]: [None] is the
    TypeError raised by [entity.data.values] when the data manager is
    null. *)
Definition interpolateEntity (entity : Entity) : option Entity :=
  match data entity with
  | None => None
  | Some values =>
      match serverX values, serverY values with
      | Some sx, Some sy =>
          Some (mkEntity (Phaser_Math_Linear (e_x entity) sx 0.2)
                         (Phaser_Math_Linear (e_y entity) sy 0.2)
                         (Some values))
      | _, _ => Some entity
      end
  end.

(** [interpolateOtherPlayers()]; [own] is [this.room.sessionId]. The loop
    visits every sprite; it ends with the TypeError ([None]) as soon as it
    visits a sprite, other than one stored under [own], that has no data
    manager, and otherwise returns with every such sprite moved. *)
Definition interpolateOtherPlayers (own : string)
    (playerEntities : gmap string Entity) : option (gmap string Entity) :=
  if decide (map_Forall
               (fun sessionId entity =>
                  sessionId = own \/ is_Some (data entity))
               playerEntities)
  then
    Some (map_imap
            (fun sessionId entity =>
               if decide (sessionId = own) then Some entity
               else interpolateEntity entity)
            playerEntities)
  else None.

(** [n] frames in a row, as far as the sprites are concerned. *)
Fixpoint interpolations (n : nat) (own : string)
    (playerEntities : gmap string Entity) : option (gmap string Entity) :=
  match n with
  | O => Some playerEntities
  | S n' =>
      match interpolations n' own playerEntities with
      | Some playerEntities' => interpolateOtherPlayers own playerEntities'
      | None => None
      end
  end.

(** How a call ends: with a result, with a TypeError, or not within the
    bound the model puts on the iterations of a loop. *)
Inductive Outcome (A : Type) : Type :=
| Returns (a : A)
| Throws
| Running.
Arguments Returns {A} a.
Arguments Throws {A}.
Arguments Running {A}.

(** What the framework and the network deliver to the scene. [FixedTick] is
    one iteration of the loop of [update], which runs only when the local
    player exists. *)
Inductive Callback :=
| PlayerSet (body : Body)
| FixedTick (keys : Keys)
| PingSent (now : Z)
| PongReceived (endTime : Z)
| Changed (serverPlayer : PlayerState).

Section Loop.
Context `{M : Matter}.

Definition fire (scene : PlatformerScene) (cb : Callback) : PlatformerScene :=
  match cb with
  | PlayerSet body => setPlayer scene body
  | FixedTick keys =>
      match currentPlayer scene with
      | Some _ => (fixedTick keys scene).1
      | None => scene
      end
  | PingSent now => sendPing now scene
  | PongReceived endTime => onPong endTime scene
  | Changed serverPlayer => onChange serverPlayer scene
  end.

Definition fireAll (callbacks : list Callback) (scene : PlatformerScene)
    : PlatformerScene :=
  foldl fire scene callbacks.

(** The loop of [update]: [while (this.elapsedTime >= this.fixedTimeStep)
    { this.elapsedTime -= this.fixedTimeStep; this.fixedTick(...) }] on the
    double [elapsedTime], with the commands it sends, oldest first. [fuel]
    bounds the iterations: [None] when the bound is reached with the loop
    test still true. *)
Fixpoint catchUp (fuel : nat) (keys : Keys) (elapsedTime : float)
    (scene : PlatformerScene) (sent : list InputData)
    : option (float * PlatformerScene * list InputData) :=
  match fuel with
  | O =>
      if PrimFloat.leb Double.FIXED_TIME_STEP elapsedTime then None
      else Some (elapsedTime, scene, sent)
  | S fuel' =>
      if PrimFloat.leb Double.FIXED_TIME_STEP elapsedTime
      then
        let '(scene', message) := fixedTick keys scene in
        catchUp fuel' keys (elapsedTime - Double.FIXED_TIME_STEP)%float scene'
                (sent ++ from_option (fun m => [m]) [] message)
      else Some (elapsedTime, scene, sent)
  end.

(** [update(time, delta)] on the accumulator [elapsedTime], the scene and
    the sprites of the other players: nothing happens before the local
    player exists; after the loop the sprites are interpolated. *)
Definition update (fuel : nat) (own : string) (keys : Keys) (delta : float)
    (state : float * PlatformerScene * gmap string Entity)
    : Outcome (float * PlatformerScene * gmap string Entity * list InputData) :=
  let '(elapsedTime, scene, playerEntities) := state in
  match currentPlayer scene with
  | None => Returns (elapsedTime, scene, playerEntities, [])
  | Some _ =>
      match catchUp fuel keys (elapsedTime + delta)%float scene [] with
      | Some (elapsedTime2, scene2, sent) =>
          match interpolateOtherPlayers own playerEntities with
          | Some playerEntities2 =>
              Returns (elapsedTime2, scene2, playerEntities2, sent)
          | None => Throws
          end
      | None => Running
      end
  end.
End Loop.

(** The command a fixed step builds from the keys. *)
Definition payloadOf (keys : Keys) (scene : PlatformerScene) : InputData :=
  mkInput (key_a keys || cursor_left keys)
          (key_d keys || cursor_right keys)
          (cursor_up keys || key_space keys)
          (currentTick scene + 1 + serverTickOffset scene).
End Frames.

(* ===================================================================== *)
(** ** The rooms of the template: Part1Room and Part4Room                *)
(* ===================================================================== *)

(** [class Part1Room]: the input is applied when it arrives. *)
Module Part1.
Record Input := mkInput {
  left : bool;
  right : bool;
  up : bool;
  down : bool
}.

Record Player := mkPlayer { x : R; y : R }.

Record MyRoomState := mkState {
  mapWidth : R;
  mapHeight : R;
  players : gmap string Player
}.

(** [onCreate]: the map dimensions. *)
Definition onCreate : MyRoomState := mkState 800 600 ∅.

(** The body of the handler of message 0, on the player. *)
Definition move (input : Input) (player : Player) : Player :=
  let velocity := 2%R in
  let x1 :=
    if left input then (x player - velocity)%R
    else if right input then (x player + velocity)%R
    else x player in
  let y1 :=
    if up input then (y player - velocity)%R
    else if down input then (y player + velocity)%R
    else y player in
  mkPlayer x1 y1.

(** [this.onMessage(0, (client, input) => ...)]: [None] is the TypeError
    raised by [player.x] or [player.y] when the session has no player. The
    handler touches the player only in the branch of a flag that is set:
    with no player and no flag set it returns and nothing has changed. *)
Definition onMessage0 (sessionId : string) (input : Input)
    (state : MyRoomState) : option MyRoomState :=
  match players state !! sessionId with
  | Some player =>
      Some (mkState (mapWidth state) (mapHeight state)
                    (<[sessionId := move input player]> (players state)))
  | None =>
      if left input || right input || up input || down input then None
      else Some state
  end.

(** [onJoin]: [u] and [v] are the two results of [Math.random()]. *)
Definition onJoin (sessionId : string) (u v : R) (state : MyRoomState)
    : MyRoomState :=
  mkState (mapWidth state) (mapHeight state)
          (<[sessionId := mkPlayer (u * mapWidth state) (v * mapHeight state)]>
             (players state)).

(** [onLeave] *)
Definition onLeave (sessionId : string) (state : MyRoomState) : MyRoomState :=
  mkState (mapWidth state) (mapHeight state)
          (delete sessionId (players state)).
End Part1.

(** [class Part4Room]: the input is queued and applied by the fixed step. *)
Module Part4.
Record Input := mkInput {
  left : bool;
  right : bool;
  up : bool;
  down : bool;
  tick : Z
}.

(** [tick] is undefined until an input has been applied. *)
Record Player := mkPlayer {
  x : R;
  y : R;
  p_tick : option Z;
  inputQueue : list Input
}.

Record MyRoomState := mkState {
  mapWidth : R;
  mapHeight : R;
  players : gmap string Player
}.

Definition fixedTimeStep : R := (1000 / 60)%R.

Definition onCreate : MyRoomState := mkState 800 600 ∅.

(** [this.onMessage(0, (client, input) => ...)]: [None] is the TypeError
    raised by [player.inputQueue] when the session has no player. *)
Definition onMessage0 (sessionId : string) (input : Input)
    (state : MyRoomState) : option MyRoomState :=
  match players state !! sessionId with
  | Some player =>
      Some (mkState (mapWidth state) (mapHeight state)
              (<[sessionId :=
                   mkPlayer (x player) (y player) (p_tick player)
                            (inputQueue player ++ [input])]>
                 (players state)))
  | None => None
  end.

(** [while (input = player.inputQueue.shift()) { ... }] *)
Fixpoint dequeue (queue : list Input) (px py : R) (t : option Z)
    : R * R * option Z :=
  match queue with
  | [] => (px, py, t)
  | input :: rest =>
      let velocity := 2%R in
      let px1 :=
        if left input then (px - velocity)%R
        else if right input then (px + velocity)%R
        else px in
      let py1 :=
        if up input then (py - velocity)%R
        else if down input then (py + velocity)%R
        else py in
      dequeue rest px1 py1 (Some (tick input))
  end.

(** [fixedTick(timeStep)] *)
Definition fixedTick (timeStep : R) (state : MyRoomState) : MyRoomState :=
  mkState (mapWidth state) (mapHeight state)
    ((fun player =>
        let '(px, py, t) :=
          dequeue (inputQueue player) (x player) (y player) (p_tick player) in
        mkPlayer px py t []) <$> players state).

(** [onJoin]: [u] and [v] are the two results of [Math.random()]. *)
Definition onJoin (sessionId : string) (u v : R) (state : MyRoomState)
    : MyRoomState :=
  mkState (mapWidth state) (mapHeight state)
          (<[sessionId :=
               mkPlayer (u * mapWidth state) (v * mapHeight state) None []]>
             (players state)).

(** [onLeave] *)
Definition onLeave (sessionId : string) (state : MyRoomState) : MyRoomState :=
  mkState (mapWidth state) (mapHeight state)
          (delete sessionId (players state)).

(** The horizontal and vertical moves a command asks for, in units of the
    velocity. *)
Definition dx (input : Input) : Z :=
  if left input then (-1)%Z else if right input then 1%Z else 0%Z.

Definition dy (input : Input) : Z :=
  if up input then (-1)%Z else if down input then 1%Z else 0%Z.
End Part4.

(* ===================================================================== *)
(** ** The earlier, compiled version of the room (PlatformerRoom.js)     *)
(* ===================================================================== *)

Module Build.
Import Shared.

(** The player of the build: [tick] is undefined until an input has been
    applied, and there is no watermark. *)
Record Player := mkPlayer {
  p_x : R;
  p_y : R;
  p_vx : R;
  p_vy : R;
  p_tick : option Z;
  p_isGrounded : bool;
  inputQueue : list InputData;
  body : Body
}.

Record PlatformerRoom := mkRoom {
  mapWidth : R;
  mapHeight : R;
  players : gmap string Player;
  ground : Body;
  platforms : list Body;
  nextId : nat
}.

(** [this.onMessage(0, (client, input) => ...)] *)
Definition onMessage0 (sessionId : string) (input : InputData)
    (room : PlatformerRoom) : PlatformerRoom :=
  match players room !! sessionId with
  | Some player =>
      mkRoom (mapWidth room) (mapHeight room)
             (<[sessionId :=
                  mkPlayer (p_x player) (p_y player) (p_vx player)
                           (p_vy player) (p_tick player)
                           (p_isGrounded player)
                           (inputQueue player ++ [input]) (body player)]>
                (players room))
             (ground room) (platforms room) (nextId room)
  | None => room
  end.

(** [while (input = player.inputQueue.shift()) { ... }]: the body of the
    loop is the one of the current room, without the watermark. *)
Fixpoint dequeue (grounded : bool) (queue : list InputData) (body : Body)
    (t : option Z) : Body * option Z :=
  match queue with
  | [] => (body, t)
  | input :: rest =>
      dequeue grounded rest (Server.applyQueuedInput grounded input body)
              (Some (tick input))
  end.

Section Tick.
Context `{M : Matter}.

(** The callback of the first [players.forEach] of [fixedTick]. *)
Definition processInputs (groundBodies : list Body) (player : Player)
    : Player :=
  let grounded := isGrounded (body player) groundBodies in
  let '(body', t) :=
    dequeue grounded (inputQueue player) (body player) (p_tick player) in
  mkPlayer (p_x player) (p_y player) (p_vx player) (p_vy player) t
           grounded [] body'.

(** [fixedTick(timeStep)] *)
Definition fixedTick (timeStep : R) (room : PlatformerRoom)
    : PlatformerRoom :=
  let groundBodies := ground room :: platforms room in
  let processed := processInputs groundBodies <$> players room in
  let bodies := (fun kv => body kv.2) <$> map_to_list processed in
  let synced :=
    (fun player =>
       let moved :=
         Engine_update groundBodies bodies timeStep (body player) in
       mkPlayer (x (position moved)) (y (position moved))
                (x (velocity moved)) (y (velocity moved))
                (p_tick player) (p_isGrounded player) (inputQueue player)
                moved) <$> processed in
  mkRoom (mapWidth room) (mapHeight room) synced
         (ground room) (platforms room) (nextId room).
End Tick.
End Build.

(* ===================================================================== *)
(** ** Concrete cases used to evaluate the rest of the code              *)
(* ===================================================================== *)

Module Cases.
Import Shared.

(** A scene with two commands in its buffer, stamped 1 and 2. *)
Definition twoPending : Client.PlatformerScene :=
  Worlds.sceneWith (createPlayerBody 4 0 0)
                   [Worlds.idleAt 1; Worlds.rightAt 2] 2 0.

(** A scene resting in mid-air. *)
Definition resting : Client.PlatformerScene :=
  Worlds.sceneWith Worlds.apex [] 0 0.

(** A player of the room with two commands in order, both due at tick 5. *)
Definition orderly : Server.Player :=
  Server.mkPlayer SPAWN_X SPAWN_Y 0 0 4 false 0
                  [Worlds.leftAt 3; Worlds.jumpAt 4]
                  (createPlayerBody 4 SPAWN_X SPAWN_Y).

(** Two players of the room that differ in the order in which their two
    commands arrived, and in two stale replicated fields. *)
Definition leftFirst : Server.Player :=
  Server.mkPlayer SPAWN_X SPAWN_Y 0 0 0 false 0
                  [Worlds.leftAt 2; Worlds.jumpAt 1]
                  (createPlayerBody 4 SPAWN_X SPAWN_Y).

Definition jumpFirst : Server.Player :=
  Server.mkPlayer SPAWN_X SPAWN_Y 3 0 0 true 0
                  [Worlds.jumpAt 1; Worlds.leftAt 2]
                  (createPlayerBody 4 SPAWN_X SPAWN_Y).

(** A Part1 room with one player at (10, 20). *)
Definition part1 : Part1.MyRoomState :=
  Part1.mkState 800 600 {["a" := Part1.mkPlayer 10 20]}.

(** A Part4 room with one player at (10, 20) and three queued inputs,
    stamped 7, 3 and 5. *)
Definition part4 : Part4.MyRoomState :=
  Part4.mkState 800 600
    {["a" := Part4.mkPlayer 10 20 None
               [Part4.mkInput false true false false 7;
                Part4.mkInput false true true false 3;
                Part4.mkInput true true false true 5]]}.

(** A room of the earlier build with one player and two queued commands. *)
Definition built : Build.PlatformerRoom :=
  Build.mkRoom 800 600
    {["a" := Build.mkPlayer SPAWN_X SPAWN_Y 0 0 None false
               [Worlds.leftAt 3; Worlds.jumpAt 4]
               (createPlayerBody 4 SPAWN_X SPAWN_Y)]}
    (Server.ground Server.onCreate) (Server.platforms Server.onCreate) 5.

(** The tick offset the [pong] listener derives from a round trip of
    [rtt] ms. *)
Definition offsetOf (rtt : Z) : Z :=
  Double.Math_round (Double.of_Z rtt / (2 * Double.FIXED_TIME_STEP))%float.

(** What is evaluated for every round trip of a range: the offset is
    within one half of 3 * rtt / 100, and one more millisecond does not
    give a smaller offset. *)
Definition offsetTracks (rtt : Z) : bool :=
  (Z.abs (100 * offsetOf rtt - 3 * rtt) <=? 50)%Z
  && (offsetOf rtt <=? offsetOf (rtt + 1))%Z.

(** [check] holds of the [n] whole numbers from [r] on. *)
Fixpoint holdsFrom (check : Z -> bool) (n : nat) (r : Z) : bool :=
  match n with
  | O => true
  | S n' => check r && holdsFrom check n' (r + 1)
  end.
End Cases.

(* ===================================================================== *)
(** ** Basic facts                                                       *)
(* ===================================================================== *)

Import Shared.

Lemma Rltb_true (a b : R) : (a < b)%R -> Rltb a b = true.
Proof. intros H. unfold Rltb. destruct (Rlt_dec a b); [reflexivity | contradiction]. Qed.

Lemma Rltb_false (a b : R) : (b <= a)%R -> Rltb a b = false.
Proof. intros H. unfold Rltb. destruct (Rlt_dec a b); [lra | reflexivity]. Qed.

Lemma Rleb_true (a b : R) : (a <= b)%R -> Rleb a b = true.
Proof. intros H. unfold Rleb. destruct (Rle_dec a b); [reflexivity | contradiction]. Qed.

Lemma Rleb_false (a b : R) : (b < a)%R -> Rleb a b = false.
Proof. intros H. unfold Rleb. destruct (Rle_dec a b); [lra | reflexivity]. Qed.

(** *** The sort of the input queue *)

Lemma insertByTick_perm c l : Server.insertByTick c l ≡ₚ c :: l.
Proof.
  induction l as [|d l IH]; simpl; [reflexivity|].
  destruct (tick c <=? tick d)%Z; [reflexivity|].
  rewrite IH. apply Permutation_swap.
Qed.

Lemma sortByTick_perm l : Server.sortByTick l ≡ₚ l.
Proof.
  induction l as [|c l IH]; simpl; [reflexivity|].
  rewrite insertByTick_perm. by rewrite IH.
Qed.

Lemma insertByTick_ascending c l :
  Run.ascending l -> Run.ascending (Server.insertByTick c l).
Proof.
  unfold Run.ascending. induction 1 as [|d l Hs IH Hd]; simpl.
  - repeat constructor.
  - destruct (tick c <=? tick d)%Z eqn:E.
    + apply Z.leb_le in E. constructor; [by constructor|].
      constructor; [exact E|].
      eapply Forall_impl; [exact Hd|]. simpl. intros; lia.
    + apply Z.leb_gt in E. constructor; [exact IH|].
      rewrite insertByTick_perm. constructor; [lia | exact Hd].
Qed.

Lemma sortByTick_ascending l : Run.ascending (Server.sortByTick l).
Proof.
  induction l as [|c l IH]; simpl; [constructor|].
  by apply insertByTick_ascending.
Qed.

(** The sort keeps commands of one tick in the order they arrived. *)
Lemma sortByTick_stable (t : Z) l :
  filter (fun i => tick i = t) (Server.sortByTick l)
  = filter (fun i => tick i = t) l.
Proof.
  assert (Hins : forall c k,
             filter (fun i => tick i = t) (Server.insertByTick c k)
             = filter (fun i => tick i = t) (c :: k)).
  { intros c k. induction k as [|d k IH]; [reflexivity|]. simpl.
    destruct (tick c <=? tick d)%Z eqn:E; [reflexivity|].
    apply Z.leb_gt in E.
    destruct (decide (tick c = t)) as [Hc|Hc].
    - rewrite (filter_cons_False _ d) by lia. rewrite IH.
      rewrite !filter_cons_True by done.
      by rewrite (filter_cons_False _ d) by lia.
    - rewrite (filter_cons_False _ c) by done.
      rewrite !(filter_cons _ d), IH.
      by rewrite (filter_cons_False _ c) by done. }
  induction l as [|c l IH]; [reflexivity|]. simpl.
  by rewrite Hins, !filter_cons, IH.
Qed.

(** *** The drain loop *)

Lemma shifted_due now q : Forall (fun i => (tick i <= now)%Z) (Run.shifted now q).
Proof.
  induction q as [|i q IH]; simpl; [constructor|].
  destruct (tick i <=? now)%Z eqn:E; [|constructor].
  constructor; [by apply Z.leb_le | exact IH].
Qed.

Lemma shifted_prefix now q :
  Run.shifted now q ++ drop (length (Run.shifted now q)) q = q.
Proof.
  induction q as [|i q IH]; simpl; [reflexivity|].
  destruct (tick i <=? now)%Z; simpl; [by rewrite IH | reflexivity].
Qed.

Lemma last_cons_default {A} (w j : A) (s : list A) :
  default w (last (j :: s)) = default j (last s).
Proof.
  assert (H : forall j, last (j :: s) = Some (default j (last s))).
  { induction s as [|k s IH]; intros i; [reflexivity|].
    change (last (i :: k :: s)) with (last (k :: s)).
    by rewrite (IH k). }
  by rewrite H.
Qed.

(** The loop applies the shifted inputs in order, leaves the watermark at
    the tick of the last of them and keeps the rest of the queue. *)
Lemma drain_shifted now g q b w :
  Server.drain now g q b w =
    (foldl (fun b i => Server.applyQueuedInput g i b) b (Run.shifted now q),
     default w (last (tick <$> Run.shifted now q)),
     drop (length (Run.shifted now q)) q).
Proof.
  revert b w. induction q as [|i q IH]; intros b w; simpl; [reflexivity|].
  destruct (tick i <=? now)%Z eqn:E; simpl; [|reflexivity].
  rewrite IH. f_equal. f_equal.
  by rewrite last_cons_default.
Qed.

Lemma filter_all {A} (P : A -> Prop) `{!forall x, Decision (P x)} (l : list A) :
  Forall P l -> filter P l = l.
Proof.
  induction 1 as [|a l Ha Hl IH]; [reflexivity|].
  rewrite filter_cons_True by done. by rewrite IH.
Qed.

Lemma filter_none {A} (P : A -> Prop) `{!forall x, Decision (P x)} (l : list A) :
  Forall (fun a => ~ P a) l -> filter P l = [].
Proof.
  induction 1 as [|a l Ha Hl IH]; [reflexivity|].
  by rewrite filter_cons_False.
Qed.

(** On an ascending queue the loop shifts exactly the due inputs. *)
Lemma shifted_ascending now q :
  Run.ascending q ->
  Run.shifted now q = filter (fun i => (tick i <= now)%Z) q
  /\ drop (length (Run.shifted now q)) q = filter (fun i => (now < tick i)%Z) q.
Proof.
  unfold Run.ascending. induction 1 as [|i q Hs IH Hi]; simpl; [done|].
  destruct IH as [IH1 IH2].
  destruct (tick i <=? now)%Z eqn:E.
  - apply Z.leb_le in E. rewrite filter_cons_True by done.
    rewrite (filter_cons_False (fun i => (now < tick i)%Z)) by lia.
    simpl. by rewrite <- IH1, IH2.
  - apply Z.leb_gt in E. rewrite filter_cons_False by lia.
    rewrite filter_cons_True by done. simpl. split.
    + symmetry. apply filter_none.
      eapply Forall_impl; [exact Hi|]. simpl; intros; lia.
    + f_equal. symmetry. apply filter_all.
      eapply Forall_impl; [exact Hi|]. simpl; intros; lia.
Qed.

(** *** One player through one step *)

Section PlayerStep.
Context `{M : Matter}.

(** The first callback of [fixedTick] in terms of the inputs it applies. *)
Lemma processInputs_applied now gs p :
  Server.processInputs now gs p =
    Server.mkPlayer
      (Server.p_x p) (Server.p_y p) (Server.p_vx p) (Server.p_vy p)
      (Server.p_tick p) (isGrounded (Server.body p) gs)
      (default (Server.lastProcessedTick p)
               (last (tick <$> Run.applied now p)))
      (Server.cleanQueue now
         (drop (length (Run.applied now p))
               (Server.sortByTick (Server.inputQueue p))))
      (foldl (fun b i =>
                Server.applyQueuedInput (isGrounded (Server.body p) gs) i b)
             (Server.body p) (Run.applied now p)).
Proof. unfold Server.processInputs. by rewrite drain_shifted. Qed.

Lemma applied_due now p :
  Run.applied now p =
    filter (fun i => (tick i <= now)%Z) (Server.sortByTick (Server.inputQueue p)).
Proof. apply shifted_ascending, sortByTick_ascending. Qed.

Lemma remaining_future now p :
  drop (length (Run.applied now p)) (Server.sortByTick (Server.inputQueue p)) =
    filter (fun i => (now < tick i)%Z) (Server.sortByTick (Server.inputQueue p)).
Proof. apply shifted_ascending, sortByTick_ascending. Qed.

Lemma cleanQueue_subseteq now q : Server.cleanQueue now q ⊆ q.
Proof.
  unfold Server.cleanQueue. destruct (20 <? length q); [|done].
  apply list_subseteq_filter; apply _.
Qed.

(** What is left in the queue after a step is due after that step. *)
Lemma processInputs_queue_future now gs p :
  Forall (fun i => (now < tick i)%Z)
         (Server.inputQueue (Server.processInputs now gs p)).
Proof.
  rewrite processInputs_applied. simpl. rewrite remaining_future.
  apply Forall_forall. intros i Hi.
  apply cleanQueue_subseteq, list_elem_of_filter in Hi. tauto.
Qed.

(** The watermark after a step: unchanged, or the tick of a queued input
    that was due. *)
Lemma processInputs_watermark_cases now gs p :
  Server.lastProcessedTick (Server.processInputs now gs p)
    = Server.lastProcessedTick p
  \/ exists i, i ∈ Server.inputQueue p /\ (tick i <= now)%Z
       /\ Server.lastProcessedTick (Server.processInputs now gs p) = tick i.
Proof.
  rewrite processInputs_applied. simpl.
  destruct (last (tick <$> Run.applied now p)) as [t|] eqn:E; [|by left].
  right. apply last_Some_elem_of, list_elem_of_fmap in E as (i & -> & Hi).
  exists i. rewrite applied_due in Hi.
  apply list_elem_of_filter in Hi as [Hdue Hin].
  rewrite sortByTick_perm in Hin. done.
Qed.


(** A player of the room after a step is a player of the room before it,
    put through the first callback and written back. *)
Lemma fixedTick_lookup timeStep room sid :
  Server.players (Server.fixedTick timeStep room) !! sid =
    (fun p =>
       let p1 := Server.processInputs (Server.currentTick room + 1)
                   (Server.ground room :: Server.platforms room) p in
       Server.writeBack (Server.currentTick room + 1)
         (Engine_update
            (Server.ground room :: Server.platforms room)
            ((fun kv => Server.body kv.2) <$>
               map_to_list
                 (Server.processInputs (Server.currentTick room + 1)
                    (Server.ground room :: Server.platforms room)
                  <$> Server.players room))
            timeStep (Server.body p1))
         p1)
    <$> (Server.players room !! sid).
Proof.
  unfold Server.fixedTick. cbn [Server.players].
  rewrite !lookup_fmap. by destruct (Server.players room !! sid).
Qed.




Lemma onMessage0_watermark sid' input room sid :
  Run.watermark sid (Server.onMessage0 sid' input room)
    = Run.watermark sid room.
Proof.
  unfold Run.watermark, Server.onMessage0.
  destruct (Server.players room !! sid') as [p|] eqn:E; [|done].
  cbn [Server.players]. destruct (decide (sid' = sid)) as [->|Hne].
  - by rewrite lookup_insert_eq, E.
  - by rewrite lookup_insert_ne.
Qed.

End PlayerStep.

(** *** Grounding *)

Lemma isGrounded_slow `{M : Matter} body gs :
  (Rabs (y (velocity body)) < 0.1)%R -> isGrounded body gs = true.
Proof.
  intros H. unfold isGrounded.
  destruct (existsb _ _); [reflexivity|].
  destruct (0 <? length _); [reflexivity|].
  by apply Rltb_true.
Qed.

(* ===================================================================== *)
(** ** Determinism of the authoritative step                             *)
(* ===================================================================== *)

(** An ascending queue is determined by the commands it holds for every
    tick, in their order. *)
Lemma ascending_unique l1 l2 :
  Run.ascending l1 -> Run.ascending l2 -> Run.sameCommands l1 l2 -> l1 = l2.
Proof.
  unfold Run.ascending, Run.sameCommands. intros H1. revert l2.
  induction H1 as [|a l1 Hs1 IH Ha]; intros l2 H2 Hsame.
  - destruct l2 as [|b l2]; [reflexivity|].
    specialize (Hsame (tick b)). by rewrite filter_cons_True in Hsame.
  - destruct H2 as [|b l2 Hs2 Hb].
    { specialize (Hsame (tick a)). by rewrite filter_cons_True in Hsame. }
    rewrite Forall_forall in Ha. rewrite Forall_forall in Hb.
    assert (Hab : tick a = tick b).
    { apply Z.le_antisymm.
      - assert (Hin : b ∈ filter (fun i => tick i = tick b) (a :: l1)).
        { rewrite (Hsame (tick b)), filter_cons_True by done. left. }
        apply list_elem_of_filter in Hin as [Ht Hin].
        apply elem_of_cons in Hin as [->|Hin]; [lia|].
        specialize (Ha _ Hin). lia.
      - assert (Hin : a ∈ filter (fun i => tick i = tick a) (b :: l2)).
        { rewrite <- (Hsame (tick a)), filter_cons_True by done. left. }
        apply list_elem_of_filter in Hin as [Ht Hin].
        apply elem_of_cons in Hin as [->|Hin]; [lia|].
        specialize (Hb _ Hin). lia. }
    pose proof (Hsame (tick a)) as Hhead.
    rewrite !filter_cons_True in Hhead by done.
    injection Hhead as -> Htail. f_equal. apply IH; [exact Hs2|].
    intros t. destruct (decide (t = tick b)) as [->|Hne]; [exact Htail|].
    specialize (Hsame t).
    by rewrite !filter_cons_False in Hsame by (intros E; by rewrite E in Hne).
Qed.

(** The sort makes the order of arrival of commands of different ticks
    irrelevant. *)
Lemma sortByTick_sameCommands q1 q2 :
  Run.sameCommands q1 q2 -> Server.sortByTick q1 = Server.sortByTick q2.
Proof.
  intros Hsame. apply ascending_unique; try apply sortByTick_ascending.
  intros t. by rewrite !sortByTick_stable.
Qed.

Lemma sameCommands_refl q : Run.sameCommands q q.
Proof. by intros t. Qed.

Lemma sameCommands_snoc q1 q2 input :
  Run.sameCommands q1 q2 -> Run.sameCommands (q1 ++ [input]) (q2 ++ [input]).
Proof. intros Hsame t. by rewrite !filter_app, Hsame. Qed.

Lemma sameWorld_refl room : Run.sameWorld room room.
Proof.
  repeat split. intros sid.
  destruct (Server.players room !! sid); constructor.
  repeat split; apply sameCommands_refl.
Qed.

Section Determinism.
Context `{M : Matter}.

(** The first callback of a step reads the body, the watermark and the
    commands of a player, and nothing else. *)
Lemma processInputs_samePlayer now gs p1 p2 :
  Run.samePlayer p1 p2 ->
  Server.p_isGrounded (Server.processInputs now gs p1)
    = Server.p_isGrounded (Server.processInputs now gs p2)
  /\ Server.lastProcessedTick (Server.processInputs now gs p1)
     = Server.lastProcessedTick (Server.processInputs now gs p2)
  /\ Server.inputQueue (Server.processInputs now gs p1)
     = Server.inputQueue (Server.processInputs now gs p2)
  /\ Server.body (Server.processInputs now gs p1)
     = Server.body (Server.processInputs now gs p2).
Proof.
  intros (Hb & Hw & Hq). apply sortByTick_sameCommands in Hq.
  rewrite !processInputs_applied. unfold Run.applied.
  cbn [Server.p_isGrounded Server.lastProcessedTick Server.inputQueue
       Server.body].
  by rewrite Hb, Hw, Hq.
Qed.

(** The bodies a step hands to the engine. *)
Lemma handed_bodies now gs (m : gmap string Server.Player) :
  (fun kv : string * Server.Player => Server.body kv.2)
    <$> map_to_list (Server.processInputs now gs <$> m)
  = (map_to_list
       ((fun p => Server.body (Server.processInputs now gs p)) <$> m)).*2.
Proof.
  rewrite !map_to_list_fmap, <- !list_fmap_compose.
  apply list_fmap_ext. by intros _ [sid p] _.
Qed.

Lemma sameWorld_fixedTick timeStep room1 room2 :
  Run.sameWorld room1 room2 ->
  Server.players (Server.fixedTick timeStep room1)
  = Server.players (Server.fixedTick timeStep room2).
Proof.
  intros (Ht & Hg & Hp & Hs).
  assert (Hbodies :
    (fun p => Server.body
                (Server.processInputs (Server.currentTick room1 + 1)
                   (Server.ground room1 :: Server.platforms room1) p))
      <$> Server.players room1
    = (fun p => Server.body
                  (Server.processInputs (Server.currentTick room2 + 1)
                     (Server.ground room2 :: Server.platforms room2) p))
        <$> Server.players room2).
  { apply map_eq. intros sid. rewrite !lookup_fmap, <- Ht, <- Hg, <- Hp.
    destruct (Hs sid) as [p1 p2 Hsame|]; [|reflexivity]. simpl. f_equal.
    apply (processInputs_samePlayer _ _ _ _ Hsame). }
  apply map_eq. intros sid. rewrite !fixedTick_lookup, !handed_bodies.
  rewrite <- Hbodies, <- Ht, <- Hg, <- Hp.
  destruct (Hs sid) as [p1 p2 Hsame|]; [|reflexivity]. simpl. f_equal.
  destruct (processInputs_samePlayer (Server.currentTick room1 + 1)
              (Server.ground room1 :: Server.platforms room1) p1 p2 Hsame)
    as (Hgr & Hw & Hq & Hb).
  unfold Server.writeBack. by rewrite Hgr, Hw, Hq, Hb.
Qed.

Lemma sameWorld_handle timeStep room1 room2 e :
  Run.sameWorld room1 room2 ->
  Run.sameWorld (Run.handle timeStep room1 e) (Run.handle timeStep room2 e).
Proof.
  intros Hsame. destruct e as [sid input|]; cbn [Run.handle].
  - destruct Hsame as (Ht & Hg & Hp & Hs). unfold Server.onMessage0.
    destruct (Hs sid) as [p1 p2 (Hb & Hw & Hq)|]; [|by repeat split].
    repeat split; try assumption. cbn [Server.players]. intros sid'.
    destruct (decide (sid = sid')) as [<-|Hne].
    + rewrite !lookup_insert_eq. constructor.
      repeat split; try assumption. by apply sameCommands_snoc.
    + rewrite !lookup_insert_ne by done. apply Hs.
  - pose proof (sameWorld_fixedTick timeStep _ _ Hsame) as Hplayers.
    destruct Hsame as (Ht & Hg & Hp & Hs).
    split; [cbn [Server.fixedTick Server.currentTick]; by rewrite Ht|].
    split; [exact Hg|]. split; [exact Hp|].
    rewrite Hplayers. apply sameWorld_refl.
Qed.

Lemma sameWorld_run timeStep events room1 room2 :
  Run.sameWorld room1 room2 ->
  Run.sameWorld (Run.run timeStep events room1)
                (Run.run timeStep events room2).
Proof.
  revert room1 room2. induction events as [|e events IH]; intros r1 r2 Hsame.
  - exact Hsame.
  - unfold Run.run. simpl. apply IH. by apply sameWorld_handle.
Qed.

(** C2. Two runs of the room that start from the same world (the same tick
    counter, static bodies, sessions, bodies, watermarks and queued
    commands; the replicated fields, which a step overwrites, and the order
    in which commands of different ticks arrived may differ) and receive
    the same sequence of commands and steps end, after the fixed step, with
    the same players: the same entity state for every session, the same
    bodies and the same queues. In particular the step run twice from one
    state with one command sequence gives one result. The answer of the
    physics engine is a function of the bodies it is given. *)
Theorem fixedTick_deterministic timeStep events room1 room2 :
  Run.sameWorld room1 room2 ->
  let result1 := Server.fixedTick timeStep (Run.run timeStep events room1) in
  let result2 := Server.fixedTick timeStep (Run.run timeStep events room2) in
  Server.players result1 = Server.players result2
  /\ Server.currentTick result1 = Server.currentTick result2
  /\ forall sessionId,
       Server.entityState <$> (Server.players result1 !! sessionId)
       = Server.entityState <$> (Server.players result2 !! sessionId).
Proof.
  intros Hsame result1 result2.
  pose proof (sameWorld_run timeStep events _ _ Hsame) as Hrun.
  pose proof (sameWorld_fixedTick timeStep _ _ Hrun) as Hplayers.
  fold result1 result2 in Hplayers.
  split; [exact Hplayers|]. split.
  - subst result1 result2. cbn [Server.fixedTick Server.currentTick].
    by rewrite (proj1 Hrun).
  - intros sid. by rewrite Hplayers.
Qed.
End Determinism.

Lemma two_orders_sameCommands :
  Run.sameCommands [Worlds.leftAt 2; Worlds.jumpAt 1]
                   [Worlds.jumpAt 1; Worlds.leftAt 2].
Proof.
  intros t. rewrite !filter_cons, !filter_nil.
  cbn [tick Worlds.leftAt Worlds.jumpAt].
  repeat case_decide; try lia; reflexivity.
Qed.

Lemma arrival_orders_sameWorld :
  Run.sameWorld Worlds.leftThenJump Worlds.jumpThenLeft.
Proof.
  repeat split. intros sid.
  unfold Worlds.leftThenJump, Worlds.jumpThenLeft, Server.onMessage0,
    Worlds.joined, Server.onJoin.
  cbn [Server.players]. rewrite !lookup_insert_eq.
  cbn [Server.players]. rewrite !lookup_insert_eq.
  cbn [Server.players]. destruct (decide ("a" = sid)) as [<-|Hne].
  - rewrite !lookup_insert_eq. constructor. repeat split.
    apply two_orders_sameCommands.
  - rewrite !lookup_insert_ne by done. unfold Server.onCreate.
    cbn [Server.players]. rewrite lookup_empty. constructor.
Qed.

Lemma fixedTick_deterministic_witness :
  Run.sameWorld Worlds.leftThenJump Worlds.jumpThenLeft
  /\ Run.queued "a" Worlds.leftThenJump <> Run.queued "a" Worlds.jumpThenLeft
  /\ Server.players
       (@Server.fixedTick Worlds.emptySpace Server.fixedTimeStep
          (@Run.run Worlds.emptySpace Server.fixedTimeStep [Run.Tick]
             Worlds.leftThenJump))
     = Server.players
         (@Server.fixedTick Worlds.emptySpace Server.fixedTimeStep
            (@Run.run Worlds.emptySpace Server.fixedTimeStep [Run.Tick]
               Worlds.jumpThenLeft)).
Proof.
  split; [exact arrival_orders_sameWorld|]. split.
  - vm_compute. congruence.
  - exact (proj1 (@fixedTick_deterministic Worlds.emptySpace
                    Server.fixedTimeStep [Run.Tick] _ _
                    arrival_orders_sameWorld)).
Defined.

(* ===================================================================== *)
(** ** The watermark [lastProcessedTick]                                 *)
(* ===================================================================== *)





(* ===================================================================== *)
(** ** Commands for a session that has not joined                        *)
(* ===================================================================== *)

(** C9. A command that arrives for a session without a player is dropped:
    the handler returns the room as it was (state, bodies and every queue),
    and it has no failing path. *)
Theorem input_before_join_dropped sessionId input room :
  Server.players room !! sessionId = None ->
  Server.onMessage0 sessionId input room = room.
Proof. intros H. unfold Server.onMessage0. by rewrite H. Qed.

Lemma input_before_join_dropped_witness :
  Server.players Worlds.joined !! "b" = None
  /\ Server.onMessage0 "b" (Worlds.jumpAt 1) Worlds.joined = Worlds.joined.
Proof.
  assert (H : Server.players Worlds.joined !! "b" = None).
  { unfold Worlds.joined, Server.onJoin. cbn [Server.players].
    rewrite lookup_insert_ne by done. apply lookup_empty. }
  exact (conj H (input_before_join_dropped "b" (Worlds.jumpAt 1) _ H)).
Defined.

(* ===================================================================== *)
(** ** Order of the input queue                                          *)
(* ===================================================================== *)

(** The step applies, for every entity, the due commands of its queue in
    ascending order of tick, commands of equal tick in arrival order. *)
Lemma appliedNext_sorted_due sid room :
  Run.ascending (Run.appliedNext sid room)
  /\ Run.appliedNext sid room ≡ₚ
       filter (fun i => (tick i <= Server.currentTick room + 1)%Z)
              (Run.queued sid room).
Proof.
  unfold Run.appliedNext, Run.queued.
  destruct (Server.players room !! sid) as [p|]; simpl.
  - rewrite applied_due. split.
    + pose proof (sortByTick_ascending (Server.inputQueue p)) as Hs.
      unfold Run.ascending in *.
      induction Hs as [|i l Hs IH Hi]; [constructor|].
      destruct (decide (tick i <= Server.currentTick room + 1)%Z).
      * rewrite filter_cons_True by done. constructor; [exact IH|].
        apply Forall_forall. intros j Hj.
        apply list_elem_of_filter in Hj as [_ Hj].
        rewrite Forall_forall in Hi. by apply Hi.
      * by rewrite filter_cons_False.
    + by rewrite sortByTick_perm.
  - split; [constructor | reflexivity].
Qed.

(** C5, as stated, fails: the room keeps both commands of tick 2, and the
    step at tick 9 applies four commands, not three. *)
Lemma duplicate_tick_is_applied :
  let room :=
    @Run.run Worlds.emptySpace Server.fixedTimeStep Worlds.fourArrive
             Worlds.joined in
  Server.currentTick room = 8%Z
  /\ tick <$> Run.queued "a" room = [5; 2; 9; 2]%Z
  /\ tick <$> Run.appliedNext "a" room = [2; 2; 5; 9]%Z
  /\ tick <$> Run.appliedNext "a" room <> [2; 5; 9]%Z.
Proof. vm_compute. repeat split; congruence. Qed.

(** C5, amended. Enqueuing commands with the ticks 5, 2, 9, 2 keeps all
    four of them; the step at tick 9 removes and applies all four, in
    ascending order of tick and, for the two of tick 2, in arrival order:
    2, 2, 5, 9. The queue is then empty and the watermark is 9. *)
Theorem four_commands_drained_in_order `{M : Matter} :
  let room := Run.run Server.fixedTimeStep Worlds.fourArrive Worlds.joined in
  let room' := Server.fixedTick Server.fixedTimeStep room in
  Run.queued "a" room = Worlds.fourCommands
  /\ Run.appliedNext "a" room
       = [Worlds.leftAt 2; Worlds.rightAt 2; Worlds.idleAt 5; Worlds.idleAt 9]
  /\ Server.currentTick room' = 9%Z
  /\ Run.queued "a" room' = []
  /\ Run.watermark "a" room' = 9%Z.
Proof. vm_compute. repeat split; congruence. Qed.

(* ===================================================================== *)
(** ** Horizontal velocity                                               *)
(* ===================================================================== *)

Lemma applyJump_velocity body f : velocity (applyJump body f) = velocity body.
Proof. reflexivity. Qed.

Lemma applyQueuedInput_velocity grounded input body :
  velocity (Server.applyQueuedInput grounded input body) =
    mkVector (if left input then (- PLAYER_SPEED)%R
              else if right input then PLAYER_SPEED else 0%R)
             (y (velocity body)).
Proof.
  unfold Server.applyQueuedInput.
  by destruct (jump input && grounded).
Qed.

Lemma applyInput_player `{M : Matter} input scene body :
  Client.currentPlayer scene = Some body ->
  Client.currentPlayer (Client.applyInput input scene) =
    Some (Server.applyQueuedInput (Client.isPlayerGrounded scene) input body).
Proof. intros H. unfold Client.applyInput. by rewrite H. Qed.

(** C6, as stated, fails when both flags are set: the command moves the
    player to the left at full speed, on the server and on the client. *)
Lemma both_pressed_moves_left :
  x (velocity (Server.applyQueuedInput true (Worlds.bothAt 1) Worlds.apex))
    = (-5)%R
  /\ x (velocity (Server.applyQueuedInput true (Worlds.bothAt 1) Worlds.apex))
       <> 0%R
  /\ (x ∘ velocity) <$>
       Client.currentPlayer
         (@Client.applyInput Worlds.emptySpace (Worlds.bothAt 1)
            (Worlds.sceneWith Worlds.apex [] 0 0))
     = Some (-5)%R.
Proof.
  rewrite (@applyInput_player Worlds.emptySpace _ _ Worlds.apex) by reflexivity.
  cbn [fmap option_fmap option_map compose].
  rewrite !applyQueuedInput_velocity.
  cbn [x left right Worlds.bothAt]. unfold PLAYER_SPEED.
  split; [lra|]. split; [lra|]. f_equal; lra.
Qed.

(** C6, amended. Every command applied during a step sets the horizontal
    velocity of the entity to minus the speed when its left flag is set,
    whether or not the right flag is set too; to the speed when only the
    right flag is set; to zero when neither is set. This holds for the
    authoritative loop and for the prediction, and the vertical velocity is
    kept. *)
Theorem horizontal_velocity_from_flags `{M : Matter} input grounded body scene :
  Client.currentPlayer scene = Some body ->
  let served := Server.applyQueuedInput grounded input body in
  let predicted := Client.currentPlayer (Client.applyInput input scene) in
  (left input = true -> x (velocity served) = (- PLAYER_SPEED)%R)
  /\ (left input = false -> right input = true ->
      x (velocity served) = PLAYER_SPEED)
  /\ (left input = false -> right input = false ->
      x (velocity served) = 0%R)
  /\ y (velocity served) = y (velocity body)
  /\ velocity <$> predicted = Some (velocity served).
Proof.
  intros Hp served predicted. subst served predicted.
  rewrite (applyInput_player _ _ _ Hp).
  cbn [fmap option_fmap option_map].
  rewrite !applyQueuedInput_velocity. cbn [x y].
  repeat split; try (intros ->; try intros ->; reflexivity).
Qed.

Lemma horizontal_velocity_from_flags_witness :
  Client.currentPlayer (Worlds.sceneWith Worlds.apex [] 0 0) = Some Worlds.apex
  /\ x (velocity (Server.applyQueuedInput true (Worlds.bothAt 1) Worlds.apex))
     = (- PLAYER_SPEED)%R.
Proof.
  split; [reflexivity|].
  apply (@horizontal_velocity_from_flags Worlds.emptySpace
           (Worlds.bothAt 1) true Worlds.apex
           (Worlds.sceneWith Worlds.apex [] 0 0) eq_refl).
  reflexivity.
Defined.

(* ===================================================================== *)
(** ** Bounding of the queues                                            *)
(* ===================================================================== *)

Lemma applyInput_fields `{M : Matter} input scene :
  Client.inputBuffer (Client.applyInput input scene) = Client.inputBuffer scene
  /\ Client.currentTick (Client.applyInput input scene)
     = Client.currentTick scene
  /\ Client.serverTickOffset (Client.applyInput input scene)
     = Client.serverTickOffset scene.
Proof.
  unfold Client.applyInput. by destruct (Client.currentPlayer scene).
Qed.

(** The cleanup of the prediction buffer, with the cutoff the code uses:
    fifty ticks below the tick the step has stamped on its command. *)
Lemma client_buffer_cutoff `{M : Matter} keys scene :
  (100 < length (Client.inputBuffer scene) + 1)%nat ->
  let scene' := (Client.fixedTick keys scene).1 in
  Client.currentTick scene' = (Client.currentTick scene + 1)%Z
  /\ Client.serverTickOffset scene' = Client.serverTickOffset scene
  /\ Forall (fun i =>
               (tick i > Client.currentTick scene'
                         + Client.serverTickOffset scene' - 50)%Z)
            (Client.inputBuffer scene').
Proof.
  intros Hlen. unfold Client.fixedTick. cbn [fst].
  destruct (applyInput_fields
              (mkInput (Client.key_a keys || Client.cursor_left keys)
                       (Client.key_d keys || Client.cursor_right keys)
                       (Client.cursor_up keys || Client.key_space keys)
                       (Client.currentTick scene + 1
                        + Client.serverTickOffset scene))
              (Client.mkScene (Client.room scene) (Client.currentPlayer scene)
                 (mkInput (Client.key_a keys || Client.cursor_left keys)
                          (Client.key_d keys || Client.cursor_right keys)
                          (Client.cursor_up keys || Client.key_space keys)
                          (Client.currentTick scene + 1
                           + Client.serverTickOffset scene))
                 (Client.inputBuffer scene ++
                    [mkInput (Client.key_a keys || Client.cursor_left keys)
                             (Client.key_d keys || Client.cursor_right keys)
                             (Client.cursor_up keys || Client.key_space keys)
                             (Client.currentTick scene + 1
                              + Client.serverTickOffset scene)])
                 (Client.currentTick scene + 1)
                 (Client.lastReconciledTick scene) (Client.rtt scene)
                 (Client.serverTickOffset scene) (Client.lastPingTime scene)
                 (Client.groundBodies scene)))
    as (Hb & Ht & Ho).
  cbn [Client.inputBuffer Client.currentTick Client.serverTickOffset] in *.
  rewrite Hb, Ht, Ho.
  replace (100 <? length (Client.inputBuffer scene ++ _)) with true
    by (symmetry; apply Nat.ltb_lt; rewrite length_app; simpl; lia).
  repeat split.
  apply Forall_forall. intros i Hi.
  apply list_elem_of_filter in Hi as [Hi _]. lia.
Qed.

(** C7, as stated, fails on the client when the tick offset is negative.
    The clock of the client is set back by two seconds between a ping and
    its pong: the round trip is read as -2000 ms and the offset becomes
    -60. A hundred steps later the buffer holds 100 commands; the next
    step pushes one more, cleans the buffer with the cutoff
    101 - 60 - 50 = -9, and every command it keeps, from tick -8 to tick
    41, is stamped 51 or less, that is not above the current tick
    minus 50. *)
Lemma offset_below_zero_keeps_old_commands :
  let scene := Worlds.clockSetBackHundred in
  let scene' := (@Client.fixedTick Worlds.emptySpace Worlds.noKeys scene).1 in
  Client.rtt scene = (-2000)%Z
  /\ Client.serverTickOffset scene = (-60)%Z
  /\ length (Client.inputBuffer scene) = 100%nat
  /\ Client.currentTick scene' = 101%Z
  /\ length (Client.inputBuffer scene') = 50%nat
  /\ head (tick <$> Client.inputBuffer scene') = Some (-8)%Z
  /\ ~ Forall (fun i => (tick i > Client.currentTick scene' - 50)%Z)
              (Client.inputBuffer scene').
Proof.
  vm_compute. repeat split; try reflexivity.
  intros H. apply Forall_inv in H. discriminate H.
Qed.

(** C7, amended. After any predictive step in which the buffer held more
    than 100 commands, the buffer holds only commands with tick above the
    current tick plus the tick offset minus 50, hence above the current
    tick minus 50 whenever the tick offset is not negative; after any
    authoritative step every queue of the room holds only commands with
    tick above the current tick minus 10 (so also when the queue held more
    than 20 commands). *)
Theorem queues_bounded_after_step `{M : Matter} keys scene timeStep room :
  (100 < length (Client.inputBuffer scene) + 1)%nat ->
  let scene' := (Client.fixedTick keys scene).1 in
  let room' := Server.fixedTick timeStep room in
  Forall (fun i =>
            (tick i > Client.currentTick scene'
                      + Client.serverTickOffset scene' - 50)%Z)
         (Client.inputBuffer scene')
  /\ ((0 <= Client.serverTickOffset scene)%Z ->
      Forall (fun i => (tick i > Client.currentTick scene' - 50)%Z)
             (Client.inputBuffer scene'))
  /\ map_Forall
       (fun _ player =>
          Forall (fun i => (tick i > Server.currentTick room' - 10)%Z)
                 (Server.inputQueue player))
       (Server.players room').
Proof.
  intros Hlen scene' room'.
  destruct (client_buffer_cutoff keys scene Hlen) as (_ & Ho & Hf).
  fold scene' in Ho, Hf. split; [exact Hf|]. split.
  - intros Hoff. rewrite Ho in Hf.
    eapply Forall_impl; [exact Hf|]. simpl. intros; lia.
  - intros sid p Hp. subst room'. rewrite fixedTick_lookup in Hp.
    destruct (Server.players room !! sid) as [p0|]; [|done].
    simpl in Hp. injection Hp as <-. simpl.
    eapply Forall_impl; [apply processInputs_queue_future|].
    simpl. intros; lia.
Qed.

Lemma queues_bounded_after_step_witness :
  (100 < length (Client.inputBuffer Worlds.hundredSteps) + 1)%nat
  /\ (0 <= Client.serverTickOffset Worlds.hundredSteps)%Z
  /\ Forall (fun i =>
               (tick i >
                Client.currentTick
                  (@Client.fixedTick Worlds.emptySpace Worlds.noKeys
                     Worlds.hundredSteps).1
                - 50)%Z)
            (Client.inputBuffer
               (@Client.fixedTick Worlds.emptySpace Worlds.noKeys
                  Worlds.hundredSteps).1).
Proof.
  assert (H1 : (100 < length (Client.inputBuffer Worlds.hundredSteps) + 1)%nat)
    by (vm_compute; lia).
  assert (H2 : (0 <= Client.serverTickOffset Worlds.hundredSteps)%Z)
    by (vm_compute; discriminate).
  exact (conj H1 (conj H2
           (proj1 (proj2
              (@queues_bounded_after_step Worlds.emptySpace Worlds.noKeys
                 Worlds.hundredSteps Server.fixedTimeStep Worlds.joined H1))
              H2))).
Defined.

(* ===================================================================== *)
(** ** Tick offset                                                       *)
(* ===================================================================== *)


(* ===================================================================== *)
(** ** Grounding without contact                                         *)
(* ===================================================================== *)

(** C10. [isGrounded] answers true for every body whose vertical speed is
    below 0.1, whatever the collision test and the ray query report, so
    also with no contact and no ray hit; a jump command then applies the
    jump force. *)
Theorem isGrounded_without_contact `{M : Matter} body groundBodies input :
  (Rabs (y (velocity body)) < 0.1)%R ->
  isGrounded body groundBodies = true
  /\ (jump input = true ->
      force (Server.applyQueuedInput (isGrounded body groundBodies) input body)
      = vadd (force body) (mkVector 0 (- JUMP_FORCE))).
Proof.
  intros H. rewrite (isGrounded_slow _ _ H). split; [reflexivity|].
  intros Hj. unfold Server.applyQueuedInput. by rewrite Hj.
Qed.

Lemma isGrounded_without_contact_witness :
  (Rabs (y (velocity Worlds.apex)) < 0.1)%R
  /\ Collision_collides (Matter := Worlds.emptySpace) Worlds.apex
       (Server.ground Server.onCreate) = None
  /\ Query_ray (Matter := Worlds.emptySpace)
       (Server.ground Server.onCreate :: Server.platforms Server.onCreate)
       (position Worlds.apex)
       (mkVector 400 (200 + PLAYER_SIZE / 2 + 2)) = []
  /\ @isGrounded Worlds.emptySpace Worlds.apex
       (Server.ground Server.onCreate :: Server.platforms Server.onCreate)
     = true.
Proof.
  assert (H : (Rabs (y (velocity Worlds.apex)) < 0.1)%R)
    by (simpl; rewrite Rabs_R0; lra).
  split; [exact H|]. split; [reflexivity|]. split; [reflexivity|].
  exact (proj1 (@isGrounded_without_contact Worlds.emptySpace Worlds.apex _
                  (Worlds.jumpAt 1) H)).
Defined.

(* ===================================================================== *)
(** ** Reconciliation                                                    *)
(* ===================================================================== *)

(** Blending both coordinates with a factor [t] scales the distance to the
    target by [1 - t]. *)
Lemma distance_after_blend (px py sx sy t : R) :
  (0 <= t <= 1)%R ->
  Client.Phaser_Math_Distance_Between
    (Client.Phaser_Math_Linear px sx t) (Client.Phaser_Math_Linear py sy t)
    sx sy
  = ((1 - t) * Client.Phaser_Math_Distance_Between px py sx sy)%R.
Proof.
  intros Ht. unfold Client.Phaser_Math_Distance_Between, Client.Phaser_Math_Linear.
  replace (((sx - px) * t + px - sx) * ((sx - px) * t + px - sx)
           + ((sy - py) * t + py - sy) * ((sy - py) * t + py - sy))%R
    with (((1 - t) * (1 - t))
          * ((px - sx) * (px - sx) + (py - sy) * (py - sy)))%R by ring.
  pose proof (Rle_0_sqr (1 - t)) as H0.
  pose proof (Rle_0_sqr (px - sx)) as H1.
  pose proof (Rle_0_sqr (py - sy)) as H2.
  unfold Rsqr in H0, H1, H2.
  rewrite sqrt_mult by lra.
  rewrite sqrt_square by lra. reflexivity.
Qed.

Section Reconcile.
Context `{M : Matter}.

Lemma divergence_position sp scene :
  Client.divergence sp scene =
    (fun p => Client.Phaser_Math_Distance_Between (x p) (y p)
                (ps_x sp) (ps_y sp))
    <$> (position <$> Client.currentPlayer scene).
Proof. unfold Client.divergence. by destruct (Client.currentPlayer scene). Qed.

Lemma applyInput_position input scene :
  position <$> Client.currentPlayer (Client.applyInput input scene)
  = position <$> Client.currentPlayer scene.
Proof.
  unfold Client.applyInput.
  destruct (Client.currentPlayer scene) as [body|] eqn:E; [|by rewrite E].
  simpl. by destruct (jump input && Client.isPlayerGrounded scene).
Qed.

Lemma replay_position inputs scene :
  position <$> Client.currentPlayer (Client.replay inputs scene)
  = position <$> Client.currentPlayer scene.
Proof.
  revert scene. induction inputs as [|i l IH]; intros scene; [reflexivity|].
  unfold Client.replay in *. simpl. rewrite IH. apply applyInput_position.
Qed.

(** The position a reconciliation pass leaves the local player at. *)
Lemma reconcile_position sp scene body :
  Client.currentPlayer scene = Some body ->
  let d := Client.Phaser_Math_Distance_Between
             (x (position body)) (y (position body)) (ps_x sp) (ps_y sp) in
  let t := if Rltb 30 d then 0.5%R else 0.2%R in
  position <$> Client.currentPlayer (Client.reconcileWithServer sp scene)
  = Some (mkVector
            (Client.Phaser_Math_Linear (x (position body)) (ps_x sp) t)
            (Client.Phaser_Math_Linear (y (position body)) (ps_y sp) t)).
Proof.
  intros E d t. unfold Client.reconcileWithServer. rewrite E.
  cbn [Client.currentPlayer]. rewrite replay_position. reflexivity.
Qed.

(** One pass scales the distance to the reported position by one minus the
    blend factor, and the factor depends on the distance. *)
Lemma reconcile_divergence sp scene d :
  Client.divergence sp scene = Some d ->
  Client.divergence sp (Client.reconcileWithServer sp scene)
  = Some ((1 - (if Rltb 30 d then 0.5 else 0.2)) * d)%R.
Proof.
  intros Hd. unfold Client.divergence in Hd.
  destruct (Client.currentPlayer scene) as [body|] eqn:E; [|done].
  simpl in Hd. injection Hd as Hd.
  rewrite divergence_position, (reconcile_position sp scene body E).
  cbn [fmap option_fmap option_map x y]. rewrite Hd. f_equal.
  rewrite distance_after_blend.
  - by rewrite Hd.
  - destruct (Rltb 30 d); lra.
Qed.

Lemma divergence_same_position sp sp' scene :
  ps_x sp' = ps_x sp -> ps_y sp' = ps_y sp ->
  Client.divergence sp' scene = Client.divergence sp scene.
Proof. intros Hx Hy. unfold Client.divergence. by rewrite Hx, Hy. Qed.

(** Two passes from a distance of 40 to a position the server keeps
    reporting: the first blends with 0.5, the second with 0.2. *)
Lemma two_passes_from_40 sp sp' scene :
  ps_x sp' = ps_x sp -> ps_y sp' = ps_y sp ->
  Client.divergence sp scene = Some 40%R ->
  Client.divergence sp (Client.reconcileWithServer sp scene) = Some 20%R
  /\ Client.divergence sp'
       (Client.reconcileWithServer sp'
          (Client.reconcileWithServer sp scene)) = Some 16%R.
Proof.
  intros Hx Hy Hd.
  assert (H1 : Client.divergence sp (Client.reconcileWithServer sp scene)
               = Some 20%R).
  { rewrite (reconcile_divergence sp scene 40 Hd).
    rewrite Rltb_true by lra. f_equal. lra. }
  split; [exact H1|].
  rewrite <- (divergence_same_position sp sp' _ Hx Hy) in H1.
  rewrite (reconcile_divergence sp' _ 20 H1).
  rewrite Rltb_false by lra. f_equal. lra.
Qed.
End Reconcile.

Lemma atOrigin_divergence w :
  Client.divergence (Worlds.reported w) Worlds.atOrigin = Some 40%R.
Proof.
  unfold Client.divergence. simpl. f_equal.
  unfold Client.Phaser_Math_Distance_Between.
  replace ((0 - 40) * (0 - 40) + (0 - 0) * (0 - 0))%R with (40 * 40)%R by lra.
  apply sqrt_square. lra.
Qed.

(** C4, as stated, fails at its second pass: from 40 the first pass leaves
    20, which is not above the threshold of 30, so the second pass blends
    with 0.2 and leaves 16, not 10. *)
Lemma second_pass_does_not_halve :
  let first :=
    @Client.reconcileWithServer Worlds.emptySpace (Worlds.reported 1)
                                Worlds.atOrigin in
  let second :=
    @Client.reconcileWithServer Worlds.emptySpace (Worlds.reported 2) first in
  Client.divergence (Worlds.reported 1) Worlds.atOrigin = Some 40%R
  /\ Client.inputBuffer first = []
  /\ Client.divergence (Worlds.reported 1) first = Some 20%R
  /\ Client.divergence (Worlds.reported 2) second = Some 16%R
  /\ Client.divergence (Worlds.reported 2) second <> Some 10%R.
Proof.
  intros first second.
  destruct (@two_passes_from_40 Worlds.emptySpace (Worlds.reported 1)
              (Worlds.reported 2) Worlds.atOrigin eq_refl eq_refl
              (atOrigin_divergence 1)) as [H1 H2].
  fold first in H1, H2. fold second in H2.
  split; [apply atOrigin_divergence|]. split; [reflexivity|].
  split; [exact H1|]. split; [exact H2|].
  rewrite H2. intros [= H]. lra.
Qed.

(** C4, amended. When a reconciliation pass runs with the predicted
    position 40 units from the reported one, it blends with the factor 0.5
    and leaves a distance of 20. A second pass towards the same position
    finds a distance that is not above 30, blends with the factor 0.2 and
    leaves four fifths of it: 16. Replayed commands do not move the
    position. *)
Theorem reconciliation_blend_40_20_16 `{M : Matter} sp sp' scene :
  ps_x sp' = ps_x sp -> ps_y sp' = ps_y sp ->
  Client.divergence sp scene = Some 40%R ->
  let first := Client.reconcileWithServer sp scene in
  let second := Client.reconcileWithServer sp' first in
  Client.divergence sp first = Some 20%R
  /\ Client.divergence sp' second = Some 16%R
  /\ Client.lastReconciledTick second = ps_lastProcessedTick sp'.
Proof.
  intros Hx Hy Hd. cbv zeta.
  destruct (two_passes_from_40 sp sp' scene Hx Hy Hd) as [H1 H2].
  split; [exact H1|]. split; [exact H2|].
  unfold Client.reconcileWithServer at 1.
  destruct (Client.currentPlayer (Client.reconcileWithServer sp scene))
    eqn:E; [reflexivity|].
  unfold Client.divergence in H1. by rewrite E in H1.
Qed.

Lemma reconciliation_blend_40_20_16_witness :
  ps_x (Worlds.reported 2) = ps_x (Worlds.reported 1)
  /\ ps_y (Worlds.reported 2) = ps_y (Worlds.reported 1)
  /\ Client.divergence (Worlds.reported 1) Worlds.atOrigin = Some 40%R
  /\ Client.divergence (Worlds.reported 2)
       (@Client.reconcileWithServer Worlds.emptySpace (Worlds.reported 2)
          (@Client.reconcileWithServer Worlds.emptySpace (Worlds.reported 1)
             Worlds.atOrigin))
     = Some 16%R.
Proof.
  split; [reflexivity|]. split; [reflexivity|].
  split; [apply atOrigin_divergence|].
  exact (proj1 (proj2
    (@reconciliation_blend_40_20_16 Worlds.emptySpace (Worlds.reported 1)
       (Worlds.reported 2) Worlds.atOrigin eq_refl eq_refl
       (atOrigin_divergence 1)))).
Defined.

(* ===================================================================== *)
(** ** Prediction against the authoritative loop                         *)
(* ===================================================================== *)

Section Prediction.
Context `{M : Matter}.

(** The body a step of the room leaves for the engine is [served] on the
    inputs the step applies. *)
Lemma processInputs_served now gs p :
  Server.body (Server.processInputs now gs p)
  = Run.served gs (Server.body p) (Run.applied now p).
Proof. by rewrite processInputs_applied. Qed.



End Prediction.

(** *** The ids of the bodies of a room *)

Lemma applyQueuedInput_id grounded input body :
  id (Server.applyQueuedInput grounded input body) = id body.
Proof.
  unfold Server.applyQueuedInput. by destruct (jump input && grounded).
Qed.



Lemma served_id `{M : Matter} gs body commands :
  id (Run.served gs body commands) = id body.
Proof.
  unfold Run.served. induction commands as [|c l IH] using rev_ind;
    [reflexivity|].
  by rewrite foldl_app; simpl; rewrite applyQueuedInput_id.
Qed.

(** The static bodies are created first: their ids are below the id
    counter [onCreate] leaves. *)
Lemma statics_created_first :
  Forall (fun g => (id g < Server.nextId Server.onCreate)%nat)
         (Server.ground Server.onCreate :: Server.platforms Server.onCreate).
Proof. repeat constructor. Qed.

Section Ids.
Context `{M : Matter} `{!MatterLaws M}.

(** The contact test of [isGrounded] asks whether the collision names the
    ground body as its second body; the second body of a pair is the one
    with the higher id, so the test fails for a ground body created before
    the player. *)
Lemma contact_names_the_player body groundBody :
  (id groundBody < id body)%nat -> contactOnTop body groundBody = false.
Proof.
  intros Hlt. unfold contactOnTop.
  destruct (Collision_collides body groundBody) as [c|] eqn:E; [|reflexivity].
  destruct (collides_orders_pair _ _ _ E) as [_ HB]. rewrite HB.
  replace (id body <? id groundBody)%nat with false
    by (symmetry; apply Nat.ltb_ge; lia).
  replace (id body =? id groundBody)%nat with false
    by (symmetry; apply Nat.eqb_neq; lia).
  reflexivity.
Qed.

Lemma no_contact_with_earlier_bodies body groundBodies :
  Forall (fun g => (id g < id body)%nat) groundBodies ->
  existsb (contactOnTop body) groundBodies = false.
Proof.
  induction 1 as [|g gs Hg _ IH]; [reflexivity|]. simpl.
  by rewrite contact_names_the_player, IH.
Qed.

(** Every event keeps the static bodies of the room and gives or leaves
    to every player a body created after them. *)
Lemma handle_keeps_ids room e :
  (Server.nextId Server.onCreate <= Server.nextId room)%nat ->
  map_Forall (fun _ p =>
                (Server.nextId Server.onCreate <= id (Server.body p))%nat)
             (Server.players room) ->
  (Server.nextId Server.onCreate <= Server.nextId (Lifecycle.handle room e))%nat
  /\ map_Forall (fun _ p =>
                   (Server.nextId Server.onCreate <= id (Server.body p))%nat)
                (Server.players (Lifecycle.handle room e))
  /\ Server.ground (Lifecycle.handle room e) = Server.ground room
  /\ Server.platforms (Lifecycle.handle room e) = Server.platforms room.
Proof.
  intros Hn Hall. destruct e as [sid|sid|sid input|]; cbn [Lifecycle.handle].
  - cbn [Server.onJoin Server.nextId Server.players Server.ground
         Server.platforms].
    split; [lia|]. split; [|done].
    apply map_Forall_insert_2; [exact Hn | exact Hall].
  - cbn [Server.onLeave Server.nextId Server.players Server.ground
         Server.platforms].
    split; [exact Hn|]. split; [|done]. by apply map_Forall_delete.
  - unfold Server.onMessage0.
    destruct (Server.players room !! sid) as [p|] eqn:E; [|done].
    cbn [Server.nextId Server.players Server.ground Server.platforms].
    split; [exact Hn|]. split; [|done].
    apply map_Forall_insert_2; [|exact Hall]. exact (Hall sid p E).
  - split; [exact Hn|]. split; [|done].
    intros sid p' Hp'. rewrite fixedTick_lookup in Hp'.
    destruct (Server.players room !! sid) as [p|] eqn:E; [|done].
    cbn [fmap option_fmap option_map] in Hp'. injection Hp' as <-.
    cbn [Server.writeBack Server.body].
    rewrite update_keeps_id, processInputs_served, served_id.
    by apply (Hall sid).
Qed.

Lemma run_keeps_ids events :
  let room := Lifecycle.run events Server.onCreate in
  (Server.nextId Server.onCreate <= Server.nextId room)%nat
  /\ map_Forall (fun _ p =>
                   (Server.nextId Server.onCreate <= id (Server.body p))%nat)
                (Server.players room)
  /\ Server.ground room = Server.ground Server.onCreate
  /\ Server.platforms room = Server.platforms Server.onCreate.
Proof.
  simpl. induction events as [|e events IH] using rev_ind.
  - split; [done|]. split; [apply map_Forall_empty | done].
  - unfold Lifecycle.run in *. rewrite foldl_app. simpl.
    destruct IH as (Hn & Hall & Hg & Hp).
    destruct (handle_keeps_ids _ e Hn Hall) as (Hn' & Hall' & Hg' & Hp').
    split; [exact Hn'|]. split; [exact Hall'|].
    split; congruence.
Qed.

(** In a room the static bodies have ids below the id of the body of
    every player. *)
Lemma room_statics_before_player events sid p :
  let room := Lifecycle.run events Server.onCreate in
  Server.players room !! sid = Some p ->
  Forall (fun g => (id g < id (Server.body p))%nat)
         (Server.ground room :: Server.platforms room).
Proof.
  intros room Hp. destruct (run_keeps_ids events) as (_ & Hall & Hg & Hpl).
  fold room in Hall, Hg, Hpl. rewrite Hg, Hpl.
  eapply Forall_impl; [apply statics_created_first|].
  intros g Hlt. simpl in Hlt. specialize (Hall sid p Hp). simpl in Hall. lia.
Qed.



(** X9. In every room that joins, leaves, commands and fixed steps produce
    from [onCreate], the contact test of the shared [isGrounded] fails for
    every player against every static body: the collision names the body
    with the higher id as its second body, and the static bodies were
    created before the players. A player of the room is therefore grounded
    exactly when the downward ray hits a static body or its vertical speed
    is below 0.1, and that is the flag the next fixed step publishes. *)
Theorem contact_test_never_fires events sessionId player timeStep :
  let room := Lifecycle.run events Server.onCreate in
  let groundBodies := Server.ground room :: Server.platforms room in
  let body := Server.body player in
  let rayHits :=
    Query_ray groundBodies
      (mkVector (x (position body)) (y (position body)))
      (mkVector (x (position body))
                (y (position body) + PLAYER_SIZE / 2 + 2)) in
  Server.players room !! sessionId = Some player ->
  Forall (fun groundBody => contactOnTop body groundBody = false) groundBodies
  /\ isGrounded body groundBodies
     = (Nat.ltb 0 (length rayHits) || Rltb (Rabs (y (velocity body))) 0.1)
  /\ Server.p_isGrounded
       <$> (Server.players (Server.fixedTick timeStep room) !! sessionId)
     = Some (Nat.ltb 0 (length rayHits)
             || Rltb (Rabs (y (velocity body))) 0.1).
Proof.
  intros room groundBodies body rayHits Hp.
  pose proof (room_statics_before_player events sessionId player Hp) as Hids.
  fold room groundBodies body in Hids.
  assert (Hg : isGrounded body groundBodies
               = (Nat.ltb 0 (length rayHits)
                  || Rltb (Rabs (y (velocity body))) 0.1)).
  { unfold isGrounded.
    rewrite (no_contact_with_earlier_bodies _ _ Hids). fold rayHits.
    by destruct (0 <? length rayHits)%nat. }
  split; [|split; [exact Hg|]].
  - eapply Forall_impl; [exact Hids|]. intros g Hlt.
    by apply contact_names_the_player.
  - rewrite fixedTick_lookup, Hp. cbn [fmap option_fmap option_map].
    fold room groundBodies. rewrite processInputs_applied.
    cbn [Server.writeBack Server.p_isGrounded]. fold body. by rewrite Hg.
Qed.
End Ids.

Lemma contact_lawful : MatterLaws Worlds.contact.
Proof.
  split; [|reflexivity].
  intros a b c. cbn [Collision_collides Worlds.contact].
  destruct (id a <? id b)%nat; by intros [= <-].
Qed.

(** The player that lands on the corner of a platform, the contact being
    reported and the ray passing beside the platform: the collision names
    the player, created after the platform, as its second body, so the
    contact test fails and, the player falling at 2 units per step, both
    grounded checks answer false. *)
Lemma corner_landing_not_grounded :
  @isGrounded Worlds.contact Worlds.landing Worlds.level = false
  /\ @Client.isPlayerGrounded Worlds.contact Worlds.landingScene = false.
Proof.
  assert (Hslow : Rltb (Rabs (y (velocity Worlds.landing))) 0.1 = false).
  { apply Rltb_false. simpl. rewrite Rabs_right; lra. }
  split.
  - unfold isGrounded.
    rewrite (@no_contact_with_earlier_bodies Worlds.contact contact_lawful)
      by (repeat constructor).
    cbn [Query_ray Worlds.contact length Nat.ltb Nat.leb]. exact Hslow.
  - unfold Client.isPlayerGrounded.
    cbn [Client.currentPlayer Worlds.landingScene Worlds.sceneWith
         Client.groundBodies length Nat.eqb Query_ray Worlds.contact
         Nat.ltb Nat.leb orb].
    exact Hslow.
Qed.

Lemma contact_test_never_fires_witness :
  let room :=
    @Lifecycle.run Worlds.contact [Lifecycle.Join "a"] Server.onCreate in
  let player :=
    Server.mkPlayer SPAWN_X SPAWN_Y 0 0 0 false 0 []
                    (createPlayerBody 4 SPAWN_X SPAWN_Y) in
  Server.players room !! "a" = Some player
  /\ is_Some (@Collision_collides Worlds.contact (Server.body player)
                (Server.ground room))
  /\ Forall (fun groundBody =>
               @contactOnTop Worlds.contact (Server.body player) groundBody
               = false)
            (Server.ground room :: Server.platforms room).
Proof.
  intros room player.
  assert (H1 : Server.players room !! "a" = Some player)
    by apply lookup_insert_eq.
  assert (H2 : is_Some (@Collision_collides Worlds.contact
                          (Server.body player) (Server.ground room)))
    by (by eexists).
  exact (conj H1 (conj H2
           (proj1 (@contact_test_never_fires Worlds.contact contact_lawful
                     [Lifecycle.Join "a"] "a" player Server.fixedTimeStep
                     H1)))).
Defined.


(* ===================================================================== *)
(** ** More about the authoritative room                                 *)
(* ===================================================================== *)

Section RoomFacts.
Context `{M : Matter}.

(** After the drain the cleanup of the room has nothing to discard. *)
Lemma cleanQueue_after_drain now p :
  Server.cleanQueue now
    (drop (length (Run.applied now p))
          (Server.sortByTick (Server.inputQueue p)))
  = filter (fun i => (now < tick i)%Z)
           (Server.sortByTick (Server.inputQueue p)).
Proof.
  rewrite remaining_future. unfold Server.cleanQueue.
  destruct (20 <? length _); [|reflexivity].
  apply filter_all, Forall_forall. intros i Hi.
  apply list_elem_of_filter in Hi as [Hi _]. lia.
Qed.

Lemma fixedTick_queued timeStep room sid :
  Run.queued sid (Server.fixedTick timeStep room)
  = filter (fun i => (Server.currentTick room + 1 < tick i)%Z)
           (Server.sortByTick (Run.queued sid room)).
Proof.
  unfold Run.queued. rewrite fixedTick_lookup.
  destruct (Server.players room !! sid) as [p|]; [|reflexivity]. simpl.
  rewrite processInputs_applied. simpl. apply cleanQueue_after_drain.
Qed.

(** X1. A fixed step neither loses nor duplicates a command: the commands
    it applies for a session and the commands it leaves in the queue are,
    together, the commands that were queued. What it leaves is exactly the
    commands stamped after the new tick, so the cleanup of the room never
    discards anything. *)
Theorem step_conserves_commands timeStep room sid :
  Run.appliedNext sid room ++ Run.queued sid (Server.fixedTick timeStep room)
    ≡ₚ Run.queued sid room
  /\ Run.queued sid (Server.fixedTick timeStep room)
     = filter (fun i => (Server.currentTick room + 1 < tick i)%Z)
              (Server.sortByTick (Run.queued sid room)).
Proof.
  split; [|apply fixedTick_queued].
  rewrite fixedTick_queued. unfold Run.appliedNext, Run.queued.
  destruct (Server.players room !! sid) as [p|]; [|reflexivity]. simpl.
  rewrite <- remaining_future. unfold Run.applied.
  by rewrite shifted_prefix, sortByTick_perm.
Qed.

(** X2. The commands a fixed step applies for a session are exactly the
    queued commands stamped up to the new tick, in ascending order of
    tick; commands that carry the same tick are applied in the order they
    arrived. *)
Theorem step_applies_due_in_stable_order room sid :
  let now := (Server.currentTick room + 1)%Z in
  Run.ascending (Run.appliedNext sid room)
  /\ (forall i, i ∈ Run.appliedNext sid room
                <-> i ∈ Run.queued sid room /\ (tick i <= now)%Z)
  /\ (forall t : Z,
        filter (fun i => tick i = t) (Run.appliedNext sid room)
        = filter (fun i => tick i = t)
                 (filter (fun i => (tick i <= now)%Z) (Run.queued sid room))).
Proof.
  intros now. destruct (appliedNext_sorted_due sid room) as [Hasc Hperm].
  split; [exact Hasc|]. split.
  - intros i. rewrite Hperm, list_elem_of_filter. tauto.
  - intros t. unfold Run.appliedNext, Run.queued.
    destruct (Server.players room !! sid) as [p|]; [|reflexivity]. simpl.
    rewrite applied_due. fold now.
    rewrite !list_filter_filter.
    rewrite (list_filter_iff _ (fun i => (tick i <= now)%Z /\ tick i = t))
      by (intros; tauto).
    rewrite (list_filter_iff (fun i => tick i = t /\ (tick i <= now)%Z)
                             (fun i => (tick i <= now)%Z /\ tick i = t))
      by (intros; tauto).
    rewrite <- !list_filter_filter. by rewrite sortByTick_stable.
Qed.

(** The tick counter, the stamps and the watermarks of a room. *)
Lemma handle_keeps_ticks_behind room e :
  (0 <= Server.currentTick room)%Z ->
  map_Forall (fun _ p =>
                (Server.lastProcessedTick p <= Server.currentTick room)%Z
                /\ (Server.p_tick p <= Server.currentTick room)%Z)
             (Server.players room) ->
  (0 <= Server.currentTick (Lifecycle.handle room e))%Z
  /\ map_Forall
       (fun _ p =>
          (Server.lastProcessedTick p
             <= Server.currentTick (Lifecycle.handle room e))%Z
          /\ (Server.p_tick p
                <= Server.currentTick (Lifecycle.handle room e))%Z)
       (Server.players (Lifecycle.handle room e)).
Proof.
  intros H0 Hall. destruct e as [sid|sid|sid input|]; cbn [Lifecycle.handle].
  - simpl. split; [exact H0|].
    apply map_Forall_insert_2; [simpl; lia | exact Hall].
  - simpl. split; [exact H0|]. by apply map_Forall_delete.
  - unfold Server.onMessage0.
    destruct (Server.players room !! sid) as [p|] eqn:E; [|done].
    simpl. split; [exact H0|].
    apply map_Forall_insert_2; [|exact Hall]. simpl. by apply (Hall sid).
  - split; [simpl; lia|]. intros sid p' Hp'. rewrite fixedTick_lookup in Hp'.
    destruct (Server.players room !! sid) as [p|] eqn:E; [|done].
    cbn [fmap option_fmap option_map] in Hp'. injection Hp' as <-.
    cbn [Server.writeBack Server.lastProcessedTick Server.p_tick
         Server.fixedTick Server.currentTick].
    split; [|lia]. destruct (Hall sid p E) as [Hw _].
    destruct (processInputs_watermark_cases (Server.currentTick room + 1)
                (Server.ground room :: Server.platforms room) p)
      as [-> | (i & _ & Hdue & ->)]; lia.
Qed.

(** X3. In every room that joins, leaves, commands and fixed steps can
    produce from [onCreate], the tick counter is not negative and no player
    carries a watermark or a stamp above it: the room never acknowledges a
    tick it has not reached, whatever ticks the clients send. *)
Theorem watermark_never_ahead_of_room events :
  let room := Lifecycle.run events Server.onCreate in
  (0 <= Server.currentTick room)%Z
  /\ map_Forall (fun _ p =>
                   (Server.lastProcessedTick p <= Server.currentTick room)%Z
                   /\ (Server.p_tick p <= Server.currentTick room)%Z)
                (Server.players room).
Proof.
  simpl. induction events as [|e events IH] using rev_ind.
  - simpl. split; [lia|]. apply map_Forall_empty.
  - unfold Lifecycle.run in *. rewrite foldl_app. simpl.
    destruct IH as [H0 Hall]. by apply handle_keeps_ticks_behind.
Qed.
End RoomFacts.

Lemma onMessage0_frame sid input room :
  Server.currentTick (Server.onMessage0 sid input room)
    = Server.currentTick room
  /\ Server.ground (Server.onMessage0 sid input room) = Server.ground room
  /\ Server.platforms (Server.onMessage0 sid input room)
     = Server.platforms room.
Proof.
  unfold Server.onMessage0. by destruct (Server.players room !! sid).
Qed.

(** X4. A command for a session that has a player is appended at the end
    of the queue of that player and changes nothing else: not its
    watermark, not its body, not the tick counter, and no other player. *)
Theorem message_appends_to_own_queue sid input room player :
  Server.players room !! sid = Some player ->
  let room' := Server.onMessage0 sid input room in
  Run.queued sid room' = Run.queued sid room ++ [input]
  /\ Run.watermark sid room' = Run.watermark sid room
  /\ Server.body <$> (Server.players room' !! sid) = Some (Server.body player)
  /\ Server.entityState <$> (Server.players room' !! sid)
     = Some (Server.entityState player)
  /\ Server.currentTick room' = Server.currentTick room
  /\ (forall sid', sid' <> sid ->
      Server.players room' !! sid' = Server.players room !! sid').
Proof.
  intros Hp room'. subst room'.
  split; [|split; [apply onMessage0_watermark|]].
  - unfold Run.queued, Server.onMessage0. rewrite Hp. cbn [Server.players].
    by rewrite lookup_insert_eq.
  - unfold Server.onMessage0. rewrite Hp. cbn [Server.players Server.currentTick].
    rewrite lookup_insert_eq. repeat split.
    intros sid' Hne. by rewrite lookup_insert_ne.
Qed.

Lemma message_appends_to_own_queue_witness :
  Server.players Worlds.joined !! "a"
    = Some (Server.mkPlayer SPAWN_X SPAWN_Y 0 0 0 false 0 []
              (createPlayerBody 4 SPAWN_X SPAWN_Y))
  /\ Run.queued "a" (Server.onMessage0 "a" (Worlds.jumpAt 1) Worlds.joined)
     = Run.queued "a" Worlds.joined ++ [Worlds.jumpAt 1].
Proof.
  assert (H : Server.players Worlds.joined !! "a"
              = Some (Server.mkPlayer SPAWN_X SPAWN_Y 0 0 0 false 0 []
                        (createPlayerBody 4 SPAWN_X SPAWN_Y))).
  { unfold Worlds.joined, Server.onJoin. cbn [Server.players].
    by rewrite lookup_insert_eq. }
  exact (conj H (proj1 (message_appends_to_own_queue "a" (Worlds.jumpAt 1)
                          Worlds.joined _ H))).
Defined.

(** X5. After a leave the room has no player for the session, whatever was
    queued for it is gone, the other players are as they were, and a
    command that still arrives for the session leaves the room unchanged. *)
Theorem leave_forgets_session sid input room :
  let room' := Server.onLeave sid room in
  Server.players room' !! sid = None
  /\ Run.queued sid room' = []
  /\ Server.onMessage0 sid input room' = room'
  /\ (forall sid', sid' <> sid ->
      Server.players room' !! sid' = Server.players room !! sid')
  /\ Server.currentTick room' = Server.currentTick room.
Proof.
  simpl.
  assert (H : Server.players (Server.onLeave sid room) !! sid = None)
    by apply lookup_delete_eq.
  split; [exact H|]. split; [unfold Run.queued; by rewrite H|].
  split; [unfold Server.onMessage0; by rewrite H|].
  split; [|reflexivity].
  intros sid' Hne. unfold Server.onLeave. cbn [Server.players].
  by rewrite lookup_delete_ne.
Qed.

(** X6. A join creates the player at the spawn point, at rest, not
    grounded, stamped with the tick of the room, with watermark 0 and an
    empty queue; for a session the room did not know, leaving right after
    joining gives back the player map the room had. *)
Theorem join_then_leave_restores_players sid room :
  Server.players room !! sid = None ->
  Server.players (Server.onLeave sid (Server.onJoin sid room))
    = Server.players room
  /\ Server.entityState <$> (Server.players (Server.onJoin sid room) !! sid)
     = Some (mkPlayerState SPAWN_X SPAWN_Y 0 0 (Server.currentTick room)
                           false 0)
  /\ Run.queued sid (Server.onJoin sid room) = []
  /\ (forall sid', sid' <> sid ->
      Server.players (Server.onJoin sid room) !! sid'
      = Server.players room !! sid').
Proof.
  intros Hnone. unfold Server.onLeave, Server.onJoin, Run.queued.
  cbn [Server.players]. rewrite lookup_insert_eq.
  split; [by apply delete_insert_id|]. repeat split.
  intros sid' Hne. by rewrite lookup_insert_ne.
Qed.

Lemma join_then_leave_restores_players_witness :
  Server.players Worlds.joined !! "b" = None
  /\ Server.players (Server.onLeave "b" (Server.onJoin "b" Worlds.joined))
     = Server.players Worlds.joined.
Proof.
  assert (H : Server.players Worlds.joined !! "b" = None).
  { unfold Worlds.joined, Server.onJoin. cbn [Server.players].
    rewrite lookup_insert_ne by done. apply lookup_empty. }
  exact (conj H (proj1 (join_then_leave_restores_players "b" _ H))).
Defined.

Section RoomFrame.
Context `{M : Matter}.

Lemma handle_currentTick room e :
  Server.currentTick (Lifecycle.handle room e)
  = (Server.currentTick room + Z.of_nat (Lifecycle.steps [e]))%Z.
Proof.
  destruct e as [sid|sid|sid input|]; simpl; try lia.
  rewrite (proj1 (onMessage0_frame sid input room)). lia.
Qed.

Lemma steps_app l k :
  Lifecycle.steps (l ++ k) = (Lifecycle.steps l + Lifecycle.steps k)%nat.
Proof.
  induction l as [|e l IH]; [reflexivity|].
  destruct e; simpl; rewrite IH; reflexivity.
Qed.

(** X7. The tick counter of a room counts its fixed steps: over any
    sequence of joins, leaves, commands and steps it grows by the number
    of steps in the sequence. A step keeps the set of sessions and stamps
    every player with the new tick. *)
Theorem tick_counts_steps events timeStep room :
  Server.currentTick (Lifecycle.run events room)
    = (Server.currentTick room + Z.of_nat (Lifecycle.steps events))%Z
  /\ dom (Server.players (Server.fixedTick timeStep room))
     = dom (Server.players room)
  /\ map_Forall
       (fun _ p => Server.p_tick p = (Server.currentTick room + 1)%Z)
       (Server.players (Server.fixedTick timeStep room)).
Proof.
  split; [|split].
  - induction events as [|e events IH] using rev_ind; [simpl; lia|].
    unfold Lifecycle.run in *. rewrite foldl_app, steps_app. simpl foldl.
    rewrite handle_currentTick, IH. lia.
  - unfold Server.fixedTick. cbn [Server.players]. by rewrite !dom_fmap_L.
  - intros sid p Hp. rewrite fixedTick_lookup in Hp.
    destruct (Server.players room !! sid); [|done].
    cbn [fmap option_fmap option_map] in Hp. by injection Hp as <-.
Qed.

(** What the drain of one step does to a body, command by command. *)
Lemma served_effect gs body cmds :
  let b' := Run.served gs body cmds in
  position b' = position body
  /\ y (velocity b') = y (velocity body)
  /\ x (force b') = x (force body)
  /\ y (force b')
     = (y (force body)
        - (if isGrounded body gs
           then JUMP_FORCE
                * INR (length (filter (fun i => jump i = true) cmds))
           else 0))%R
  /\ x (velocity b')
     = from_option
         (fun i => if left i then (- PLAYER_SPEED)%R
                   else if right i then PLAYER_SPEED else 0%R)
         (x (velocity body)) (last cmds).
Proof.
  unfold Run.served. induction cmds as [|c cmds IH] using rev_ind.
  - simpl. destruct (isGrounded body gs); repeat split; lra.
  - rewrite foldl_app, last_snoc, filter_app, length_app, plus_INR.
    simpl foldl. simpl from_option.
    destruct IH as (Hp & Hvy & Hfx & Hfy & _).
    set (b1 := foldl _ body cmds) in *.
    unfold Server.applyQueuedInput.
    destruct (isGrounded body gs) eqn:G; destruct (jump c) eqn:J; simpl;
      rewrite ?filter_cons_True, ?filter_cons_False by (rewrite J; done);
      simpl; repeat split; try assumption; try lra.
Qed.

(** X8. The drain of a fixed step changes neither the position nor the
    vertical velocity of a body. It sets the horizontal velocity from the
    last command it applies (left before right) and, when the body was
    grounded at the start of the step, adds the jump force once for every
    jump command it applies: jump commands drained in one step add up. *)
Theorem drain_effect_on_body now gs p :
  let cmds := Run.applied now p in
  let b' := Server.body (Server.processInputs now gs p) in
  position b' = position (Server.body p)
  /\ y (velocity b') = y (velocity (Server.body p))
  /\ x (force b') = x (force (Server.body p))
  /\ y (force b')
     = (y (force (Server.body p))
        - (if isGrounded (Server.body p) gs
           then JUMP_FORCE
                * INR (length (filter (fun i => jump i = true) cmds))
           else 0))%R
  /\ x (velocity b')
     = from_option
         (fun i => if left i then (- PLAYER_SPEED)%R
                   else if right i then PLAYER_SPEED else 0%R)
         (x (velocity (Server.body p))) (last cmds).
Proof.
  intros cmds b'. subst b'. rewrite processInputs_served.
  apply served_effect.
Qed.
End RoomFrame.

(* ===================================================================== *)
(** ** Steps in a row                                                    *)
(* ===================================================================== *)

Lemma iter_fixedTick_currentTick `{M : Matter} k room :
  Server.currentTick
    (Nat.iter k (Server.fixedTick Server.fixedTimeStep) room)
  = (Server.currentTick room + Z.of_nat k)%Z.
Proof.
  induction k as [|k IH]; [simpl; lia|].
  rewrite Nat.iter_succ. cbn [Server.fixedTick Server.currentTick].
  rewrite IH. lia.
Qed.

Lemma fixedTick_step `{M : Matter} keys scene :
  Client.currentTick (Client.fixedTick keys scene).1
    = (Client.currentTick scene + 1)%Z
  /\ Client.serverTickOffset (Client.fixedTick keys scene).1
     = Client.serverTickOffset scene
  /\ Client.room (Client.fixedTick keys scene).1 = Client.room scene
  /\ (Client.fixedTick keys scene).2
     = (if Client.room scene then Some (Frames.payloadOf keys scene) else None).
Proof.
  unfold Client.fixedTick, Client.applyInput. cbn [fst snd].
  cbn [Client.currentPlayer].
  destruct (Client.currentPlayer scene); repeat split.
Qed.

(** A frame of 50 ms on an empty accumulator: three times the double
    1000/60 is more than 50, so the loop of [update] runs two fixed steps,
    sends the commands of the ticks 1 and 2, and keeps the rest of the
    time, which is below one step, in the accumulator. *)
Lemma frame_of_50_ms_runs_two_steps :
  match @Frames.update Worlds.emptySpace 3 "a" Worlds.noKeys 50%float
          (0%float, Cases.resting, ∅) with
  | Frames.Returns (elapsedTime, scene, _, sent) =>
      Client.currentTick scene = 2%Z
      /\ sent = [Worlds.idleAt 1; Worlds.idleAt 2]
      /\ elapsedTime
         = (50 - Double.FIXED_TIME_STEP - Double.FIXED_TIME_STEP)%float
      /\ PrimFloat.ltb elapsedTime Double.FIXED_TIME_STEP = true
  | _ => False
  end.
Proof. vm_compute. repeat split. Qed.

(* ===================================================================== *)
(** ** The sprites of the other players                                  *)
(* ===================================================================== *)

Lemma Linear_gap (p s : R) :
  (Client.Phaser_Math_Linear p s 0.2 - s = 0.8 * (p - s))%R.
Proof. unfold Client.Phaser_Math_Linear. lra. Qed.

(** A sprite that is interpolated has a data manager, and keeps it. *)
Lemma interpolateEntity_data e e' :
  Frames.interpolateEntity e = Some e' ->
  is_Some (Frames.data e) /\ Frames.data e' = Frames.data e.
Proof.
  unfold Frames.interpolateEntity.
  destruct (Frames.data e) as [v|] eqn:E; [|done].
  destruct (Frames.serverX v), (Frames.serverY v); intros [= <-];
    (split; [by eexists|]); simpl; by rewrite ?E.
Qed.

Lemma interpolateEntity_is_Some e :
  is_Some (Frames.interpolateEntity e) <-> is_Some (Frames.data e).
Proof.
  unfold Frames.interpolateEntity. destruct (Frames.data e) as [v|].
  - split; [by eexists|]. intros _.
    destruct (Frames.serverX v), (Frames.serverY v); by eexists.
  - split; intros [? ?]; done.
Qed.

(** When the loop returns, every sprite has been visited once. *)
Lemma interpolate_returns own (entities entities' : gmap string Frames.Entity) :
  Frames.interpolateOtherPlayers own entities = Some entities' ->
  forall sid,
    entities' !! sid
    = entities !! sid ≫=
        (fun e => if decide (sid = own) then Some e
                  else Frames.interpolateEntity e).
Proof.
  unfold Frames.interpolateOtherPlayers. destruct (decide _); [|done].
  intros [= <-] sid. apply map_lookup_imap.
Qed.

Lemma interpolate_keeps_data own (entities entities' : gmap string Frames.Entity) :
  Frames.interpolateOtherPlayers own entities = Some entities' ->
  map_Forall (fun sid e => sid = own \/ is_Some (Frames.data e)) entities'
  /\ dom entities' = dom entities.
Proof.
  intros Hret. pose proof (interpolate_returns _ _ _ Hret) as Hlook.
  unfold Frames.interpolateOtherPlayers in Hret.
  destruct (decide _) as [Hall|]; [|done]. split.
  - intros sid e' He'. rewrite Hlook in He'.
    destruct (entities !! sid) as [e|] eqn:E; [|done]. simpl in He'.
    destruct (decide (sid = own)); [by left|]. right.
    destruct (interpolateEntity_data _ _ He') as [Hd ->]. exact Hd.
  - apply set_eq. intros sid. rewrite !elem_of_dom, Hlook.
    destruct (entities !! sid) as [e|] eqn:E; simpl.
    + split; [by eexists|]. intros _.
      destruct (decide (sid = own)); [by eexists|].
      apply interpolateEntity_is_Some.
      by destruct (Hall sid e E).
    + split; intros [? ?]; done.
Qed.

(** X11. While the server keeps reporting one position for another
    player, and every other sprite has received its first change, every
    frame closes one fifth of the gap between the sprite and that
    position, on each axis: after n frames the gap is 0.8^n times what it
    was, so the sprite approaches the position and never passes it. The
    reported position is kept and no frame fails. *)
Theorem remote_sprite_converges own (entities : gmap string Frames.Entity)
    sid e values sx sy (n : nat) :
  map_Forall (fun k e => k = own \/ is_Some (Frames.data e)) entities ->
  entities !! sid = Some e ->
  sid <> own ->
  Frames.data e = Some values ->
  Frames.serverX values = Some sx ->
  Frames.serverY values = Some sy ->
  exists entities' e',
    Frames.interpolations n own entities = Some entities'
    /\ entities' !! sid = Some e'
    /\ (Frames.e_x e' - sx = 0.8 ^ n * (Frames.e_x e - sx))%R
    /\ (Frames.e_y e' - sy = 0.8 ^ n * (Frames.e_y e - sy))%R
    /\ Frames.data e' = Some values.
Proof.
  intros Hall He Hown Hd Hx Hy.
  assert (H : exists entities' e',
             Frames.interpolations n own entities = Some entities'
             /\ map_Forall (fun k e => k = own \/ is_Some (Frames.data e))
                           entities'
             /\ entities' !! sid = Some e'
             /\ (Frames.e_x e' - sx = 0.8 ^ n * (Frames.e_x e - sx))%R
             /\ (Frames.e_y e' - sy = 0.8 ^ n * (Frames.e_y e - sy))%R
             /\ Frames.data e' = Some values).
  { induction n as [|n (m1 & e1 & Hrun & Hall1 & H1 & Gx & Gy & Hd1)].
    - exists entities, e. simpl. repeat split; try assumption; lra.
    - cbn [Frames.interpolations]. rewrite Hrun.
      destruct (Frames.interpolateOtherPlayers own m1) as [m2|] eqn:E2.
      + exists m2. destruct (interpolate_keeps_data _ _ _ E2) as [Hall2 _].
        pose proof (interpolate_returns _ _ _ E2 sid) as Hl.
        rewrite H1 in Hl. simpl in Hl. rewrite decide_False in Hl by done.
        unfold Frames.interpolateEntity in Hl. rewrite Hd1, Hx, Hy in Hl.
        eexists. split; [reflexivity|]. split; [exact Hall2|].
        split; [exact Hl|].
        cbn [Frames.e_x Frames.e_y Frames.data].
        rewrite !Linear_gap, Gx, Gy. simpl pow. repeat split; lra.
      + unfold Frames.interpolateOtherPlayers in E2.
        by rewrite decide_True in E2 by exact Hall1. }
  destruct H as (m & e' & Hrun & _ & Hl & Gx & Gy & Hd').
  exists m, e'. by repeat split.
Qed.

Lemma remote_sprite_converges_witness :
  let entities :=
    Frames.onChangeOther "b" (mkPlayerState 100 500 0 0 1 true 1)
      (Frames.onAddOther "b" (mkPlayerState 50 500 0 0 0 false 0) ∅) in
  let values := Frames.mkValues (Some 100%R) (Some 500%R) in
  map_Forall (fun k e => k = "a" \/ is_Some (Frames.data e)) entities
  /\ entities !! "b" = Some (Frames.mkEntity 50 500 (Some values))
  /\ "b" <> "a"
  /\ exists entities' e',
       Frames.interpolations 2 "a" entities = Some entities'
       /\ entities' !! "b" = Some e'
       /\ (Frames.e_x e' - 100 = 0.8 ^ 2 * (50 - 100))%R.
Proof.
  intros entities values.
  assert (H : entities !! "b" = Some (Frames.mkEntity 50 500 (Some values))).
  { subst entities. unfold Frames.onChangeOther, Frames.onAddOther.
    rewrite lookup_insert_eq. simpl. by rewrite lookup_insert_eq. }
  assert (Hall : map_Forall (fun k e => k = "a" \/ is_Some (Frames.data e))
                            entities).
  { intros k e' Hk. destruct (decide (k = "b")) as [->|Hne].
    - rewrite H in Hk. injection Hk as <-. right. by eexists.
    - subst entities. unfold Frames.onChangeOther, Frames.onAddOther in Hk.
      rewrite lookup_insert_eq in Hk.
      by rewrite !lookup_insert_ne, lookup_empty in Hk. }
  assert (Hne : "b" <> "a") by done.
  split; [exact Hall|]. split; [exact H|]. split; [exact Hne|].
  destruct (remote_sprite_converges "a" entities "b" _ values 100 500 2 Hall H
              Hne eq_refl eq_refl eq_refl) as (m & e' & Hrun & Hl & Gx & _).
  exists m, e'. split; [exact Hrun|]. split; [exact Hl | exact Gx].
Defined.

(** X12. [interpolateOtherPlayers] fails with a TypeError exactly when
    some sprite, other than one stored under the session of the local
    player, has no data manager yet. A sprite has none from the moment
    [onAdd] creates it until its first [onChange]: right after the [onAdd]
    of another player the loop fails, and a frame of a scene whose local
    player exists does not return. When the loop returns it has neither
    added nor removed a sprite. *)
Theorem frame_fails_on_sprite_without_data `{M : Matter} own
    (entities : gmap string Frames.Entity) :
  (Frames.interpolateOtherPlayers own entities = None
   <-> exists sid e,
         entities !! sid = Some e /\ sid <> own /\ Frames.data e = None)
  /\ (forall sid player,
        sid <> own ->
        Frames.interpolateOtherPlayers own
          (Frames.onAddOther sid player entities) = None)
  /\ (forall fuel keys delta elapsedTime scene,
        is_Some (Client.currentPlayer scene) ->
        Frames.interpolateOtherPlayers own entities = None ->
        forall result,
          Frames.update fuel own keys delta (elapsedTime, scene, entities)
          <> Frames.Returns result)
  /\ (forall entities',
        Frames.interpolateOtherPlayers own entities = Some entities' ->
        dom entities' = dom entities).
Proof.
  assert (Hiff : forall m : gmap string Frames.Entity,
             Frames.interpolateOtherPlayers own m = None
             <-> exists sid e,
                   m !! sid = Some e /\ sid <> own /\ Frames.data e = None).
  { intros m. unfold Frames.interpolateOtherPlayers.
    destruct (decide _) as [Hall|Hnot]; split; try done.
    - intros (sid & e & He & Hne & Hd).
      destruct (Hall sid e He) as [?|[v Hv]]; [done | congruence].
    - intros _. apply map_not_Forall in Hnot; [|apply _].
      destruct Hnot as (sid & e & He & Hn). exists sid, e.
      split; [exact He|]. split; [intros ->; apply Hn; by left|].
      destruct (Frames.data e) eqn:E; [|reflexivity].
      exfalso. apply Hn. right. by eexists. }
  split; [apply Hiff|]. split; [|split].
  - intros sid player Hne. apply Hiff.
    exists sid, (Frames.mkEntity (ps_x player) (ps_y player) None).
    split; [apply lookup_insert_eq | done].
  - intros fuel keys delta elapsedTime scene [b Hb] Hfail result.
    unfold Frames.update. rewrite Hb, Hfail.
    by destruct (Frames.catchUp _ _ _ _ _) as [[[? ?] ?]|].
  - intros m Hret. apply (interpolate_keeps_data _ _ _ Hret).
Qed.

(* ===================================================================== *)
(** ** More about reconciliation and prediction                          *)
(* ===================================================================== *)

Section ClientFacts.
Context `{M : Matter}.

Lemma applyInput_frame input scene :
  Client.room (Client.applyInput input scene) = Client.room scene
  /\ Client.inputPayload (Client.applyInput input scene)
     = Client.inputPayload scene
  /\ Client.inputBuffer (Client.applyInput input scene)
     = Client.inputBuffer scene
  /\ Client.currentTick (Client.applyInput input scene)
     = Client.currentTick scene
  /\ Client.lastReconciledTick (Client.applyInput input scene)
     = Client.lastReconciledTick scene
  /\ Client.rtt (Client.applyInput input scene) = Client.rtt scene
  /\ Client.serverTickOffset (Client.applyInput input scene)
     = Client.serverTickOffset scene
  /\ Client.lastPingTime (Client.applyInput input scene)
     = Client.lastPingTime scene
  /\ Client.groundBodies (Client.applyInput input scene)
     = Client.groundBodies scene.
Proof.
  unfold Client.applyInput. by destruct (Client.currentPlayer scene).
Qed.

Lemma replay_frame inputs scene :
  Client.room (Client.replay inputs scene) = Client.room scene
  /\ Client.inputPayload (Client.replay inputs scene)
     = Client.inputPayload scene
  /\ Client.inputBuffer (Client.replay inputs scene)
     = Client.inputBuffer scene
  /\ Client.currentTick (Client.replay inputs scene)
     = Client.currentTick scene
  /\ Client.lastReconciledTick (Client.replay inputs scene)
     = Client.lastReconciledTick scene
  /\ Client.rtt (Client.replay inputs scene) = Client.rtt scene
  /\ Client.serverTickOffset (Client.replay inputs scene)
     = Client.serverTickOffset scene
  /\ Client.lastPingTime (Client.replay inputs scene)
     = Client.lastPingTime scene
  /\ Client.groundBodies (Client.replay inputs scene)
     = Client.groundBodies scene.
Proof.
  revert scene. induction inputs as [|i l IH]; intros scene; [done|].
  unfold Client.replay in *. simpl.
  destruct (IH (Client.applyInput i scene))
    as (-> & -> & -> & -> & -> & -> & -> & -> & ->).
  apply applyInput_frame.
Qed.

(** What a replay does to the body of the local player. *)
Lemma replay_body inputs scene body :
  Client.currentPlayer scene = Some body ->
  exists body',
    Client.currentPlayer (Client.replay inputs scene) = Some body'
    /\ position body' = position body
    /\ y (velocity body') = y (velocity body)
    /\ x (velocity body')
       = from_option
           (fun i => if left i then (- PLAYER_SPEED)%R
                     else if right i then PLAYER_SPEED else 0%R)
           (x (velocity body)) (last inputs).
Proof.
  intros Hb. induction inputs as [|c l (b1 & H1 & Hp & Hy & _)] using rev_ind.
  - exists body. by repeat split.
  - unfold Client.replay in *. rewrite foldl_app. simpl foldl.
    rewrite (applyInput_player _ _ _ H1), last_snoc. eexists.
    split; [reflexivity|]. rewrite applyQueuedInput_velocity.
    unfold Server.applyQueuedInput.
    destruct (jump c && _); simpl; by repeat split.
Qed.

Lemma reconcile_lastReconciledTick sp scene body :
  Client.currentPlayer scene = Some body ->
  Client.lastReconciledTick (Client.reconcileWithServer sp scene)
  = ps_lastProcessedTick sp.
Proof. intros Hb. unfold Client.reconcileWithServer. by rewrite Hb. Qed.

(** X13. A snapshot of the server that is delivered twice reconciles at
    most once: the second delivery leaves the scene exactly as the first
    one left it. *)
Theorem onChange_idempotent sp scene :
  Client.onChange sp (Client.onChange sp scene) = Client.onChange sp scene.
Proof.
  unfold Client.onChange at 2.
  destruct (Client.lastReconciledTick scene <? ps_lastProcessedTick sp)%Z eqn:G.
  - destruct (Client.currentPlayer scene) as [body|] eqn:Hb.
    + unfold Client.onChange.
      rewrite (reconcile_lastReconciledTick sp scene body Hb).
      by rewrite Z.ltb_irrefl, G.
    + assert (Client.reconcileWithServer sp scene = scene) as ->
        by (unfold Client.reconcileWithServer; by rewrite Hb).
      unfold Client.onChange. rewrite G.
      unfold Client.reconcileWithServer. by rewrite Hb.
  - unfold Client.onChange. by rewrite G.
Qed.

Lemma fire_lastReconciledTick scene cb :
  (Client.lastReconciledTick scene
     <= Client.lastReconciledTick (Frames.fire scene cb))%Z.
Proof.
  destruct cb as [body|keys|now|endTime|sp]; simpl; try lia.
  - destruct (Client.currentPlayer scene); [|lia].
    unfold Client.fixedTick. cbn [fst Client.lastReconciledTick].
    destruct (applyInput_frame
                (mkInput (Client.key_a keys || Client.cursor_left keys)
                         (Client.key_d keys || Client.cursor_right keys)
                         (Client.cursor_up keys || Client.key_space keys)
                         (Client.currentTick scene + 1
                          + Client.serverTickOffset scene))
                (Client.mkScene (Client.room scene) (Some b)
                   (mkInput (Client.key_a keys || Client.cursor_left keys)
                            (Client.key_d keys || Client.cursor_right keys)
                            (Client.cursor_up keys || Client.key_space keys)
                            (Client.currentTick scene + 1
                             + Client.serverTickOffset scene))
                   (Client.inputBuffer scene ++
                      [mkInput (Client.key_a keys || Client.cursor_left keys)
                               (Client.key_d keys || Client.cursor_right keys)
                               (Client.cursor_up keys || Client.key_space keys)
                               (Client.currentTick scene + 1
                                + Client.serverTickOffset scene)])
                   (Client.currentTick scene + 1)
                   (Client.lastReconciledTick scene) (Client.rtt scene)
                   (Client.serverTickOffset scene) (Client.lastPingTime scene)
                   (Client.groundBodies scene)))
      as (_ & _ & _ & _ & -> & _). simpl. lia.
  - unfold Client.onChange.
    destruct (_ <? _)%Z eqn:G; [|lia]. apply Z.ltb_lt in G.
    destruct (Client.currentPlayer scene) as [body|] eqn:Hb.
    + rewrite (reconcile_lastReconciledTick sp scene body Hb). lia.
    + unfold Client.reconcileWithServer. rewrite Hb. lia.
Qed.

(** X14. On the client the reconciliation watermark [lastReconciledTick]
    never decreases, whatever the order of frames, pings, pongs, moves of
    the local player and snapshots of the server, and whatever watermarks
    those snapshots carry. *)
Theorem lastReconciledTick_never_decreases callbacks scene :
  (Client.lastReconciledTick scene
     <= Client.lastReconciledTick (Frames.fireAll callbacks scene))%Z.
Proof.
  induction callbacks as [|cb l IH] using rev_ind; [simpl; lia|].
  unfold Frames.fireAll in *. rewrite foldl_app. simpl foldl.
  etransitivity; [exact IH | apply fire_lastReconciledTick].
Qed.

(** X15. A reconciliation pass drops from the buffer the commands the
    server has acknowledged and keeps the others in their order; it takes
    the watermark of the snapshot and touches neither the tick of the
    scene nor the tick offset. It blends the vertical velocity towards the
    one the server reports; the horizontal velocity it blends survives
    only when no command is pending, since the replay sets it again from
    the last pending command. The position is the blended one. *)
Theorem reconcile_outcome sp scene body :
  Client.currentPlayer scene = Some body ->
  let d := Client.Phaser_Math_Distance_Between
             (x (position body)) (y (position body)) (ps_x sp) (ps_y sp) in
  let t := if Rltb 30 d then 0.5%R else 0.2%R in
  let pending :=
    filter (fun i => (tick i > ps_lastProcessedTick sp)%Z)
           (Client.inputBuffer scene) in
  let scene' := Client.reconcileWithServer sp scene in
  Client.inputBuffer scene' = pending
  /\ Client.lastReconciledTick scene' = ps_lastProcessedTick sp
  /\ Client.currentTick scene' = Client.currentTick scene
  /\ Client.serverTickOffset scene' = Client.serverTickOffset scene
  /\ exists body',
       Client.currentPlayer scene' = Some body'
       /\ position body'
          = mkVector
              (Client.Phaser_Math_Linear (x (position body)) (ps_x sp) t)
              (Client.Phaser_Math_Linear (y (position body)) (ps_y sp) t)
       /\ y (velocity body')
          = Client.Phaser_Math_Linear (y (velocity body)) (ps_vy sp) t
       /\ x (velocity body')
          = from_option
              (fun i => if left i then (- PLAYER_SPEED)%R
                        else if right i then PLAYER_SPEED else 0%R)
              (Client.Phaser_Math_Linear (x (velocity body)) (ps_vx sp) t)
              (last pending).
Proof.
  intros Hb d t pending scene'. subst scene'.
  unfold Client.reconcileWithServer. rewrite Hb. fold d. fold t. fold pending.
  cbn [Client.inputBuffer Client.lastReconciledTick Client.currentTick
       Client.serverTickOffset Client.currentPlayer].
  match goal with
  | |- context [Client.replay pending ?s] =>
      destruct (replay_frame pending s)
        as (_ & _ & Hbuf & Hct & _ & _ & Hoff & _);
      destruct (replay_body pending s _ eq_refl)
        as (body' & Hcur & Hpos & Hvy & Hvx)
  end.
  rewrite Hbuf, Hct, Hoff. repeat split.
  exists body'. split; [exact Hcur|]. by repeat split.
Qed.

(** X16. When the check of the client says the local player is grounded,
    the shared check the server uses says so too for the same body and
    level: every jump the prediction applies is a jump the authoritative
    loop would apply. *)
Theorem predicted_jump_is_granted scene body :
  Client.currentPlayer scene = Some body ->
  Client.isPlayerGrounded scene = true ->
  isGrounded body (Client.groundBodies scene) = true.
Proof.
  intros Hb Hg. unfold Client.isPlayerGrounded in Hg. rewrite Hb in Hg.
  destruct (length (Client.groundBodies scene) =? 0)%nat; [done|].
  unfold isGrounded. destruct (existsb _ _); [reflexivity|].
  replace (y (position body) + (PLAYER_SIZE / 2 + 2))%R
    with (y (position body) + PLAYER_SIZE / 2 + 2)%R in Hg by lra.
  cbn zeta in Hg. by destruct (0 <? length _).
Qed.

(** X17. A fixed step of the scene always keeps the command it has just
    built: the command is the last entry of the buffer after the cleanup,
    it is the stored payload, and it is what a connected scene sends (a
    scene that is not connected sends nothing but predicts all the same). *)
Theorem step_keeps_its_command keys scene :
  let command := Frames.payloadOf keys scene in
  last (Client.inputBuffer (Client.fixedTick keys scene).1) = Some command
  /\ Client.inputPayload (Client.fixedTick keys scene).1 = command
  /\ (Client.fixedTick keys scene).2
     = (if Client.room scene then Some command else None)
  /\ Client.currentPlayer (Client.fixedTick keys scene).1
     = Client.currentPlayer
         (Client.applyInput command
            (Client.mkScene (Client.room scene) (Client.currentPlayer scene)
               command (Client.inputBuffer scene ++ [command])
               (Client.currentTick scene + 1)
               (Client.lastReconciledTick scene) (Client.rtt scene)
               (Client.serverTickOffset scene) (Client.lastPingTime scene)
               (Client.groundBodies scene))).
Proof.
  intros command. destruct (fixedTick_step keys scene) as (_ & _ & _ & Hm).
  split; [|split; [|split; [exact Hm | reflexivity]]].
  - unfold Client.fixedTick. cbn [fst Client.inputBuffer].
    fold (Frames.payloadOf keys scene). fold command.
    match goal with
    | |- context [Client.applyInput command ?s] =>
        destruct (applyInput_frame command s) as (_ & _ & -> & _)
    end.
    cbn [Client.inputBuffer].
    destruct (100 <? length _); [|apply last_snoc].
    rewrite filter_app, filter_cons_True, filter_nil
      by (subst command; simpl; lia).
    apply last_snoc.
  - unfold Client.fixedTick. cbn [fst Client.inputPayload].
    fold (Frames.payloadOf keys scene). fold command.
    match goal with
    | |- context [Client.applyInput command ?s] =>
        destruct (applyInput_frame command s) as (_ & -> & _)
    end.
    reflexivity.
Qed.

(** X18. Before the local player exists nothing of the netcode acts on the
    scene: applying or replaying commands, a reconciliation pass, a
    snapshot of the server and a frame all leave the scene, the
    accumulator and the sprites as they were, send nothing, and the
    grounded check answers false. *)
Theorem nothing_happens_without_player fuel own keys delta elapsedTime
    entities input inputs sp scene :
  Client.currentPlayer scene = None ->
  Client.applyInput input scene = scene
  /\ Client.replay inputs scene = scene
  /\ Client.reconcileWithServer sp scene = scene
  /\ Client.onChange sp scene = scene
  /\ Client.isPlayerGrounded scene = false
  /\ Frames.fire scene (Frames.FixedTick keys) = scene
  /\ Frames.update fuel own keys delta (elapsedTime, scene, entities)
     = Frames.Returns (elapsedTime, scene, entities, []).
Proof.
  intros Hn.
  assert (Ha : forall i, Client.applyInput i scene = scene)
    by (intros i; unfold Client.applyInput; by rewrite Hn).
  assert (Hr : Client.reconcileWithServer sp scene = scene)
    by (unfold Client.reconcileWithServer; by rewrite Hn).
  split; [apply Ha|]. split.
  { induction inputs as [|i l IH]; [reflexivity|].
    unfold Client.replay in *. simpl. by rewrite Ha. }
  split; [exact Hr|]. split.
  { unfold Client.onChange. rewrite Hr. by destruct (_ <? _)%Z. }
  split; [unfold Client.isPlayerGrounded; by rewrite Hn|].
  split; [simpl; by rewrite Hn|].
  unfold Frames.update. by rewrite Hn.
Qed.
End ClientFacts.

Lemma reconcile_outcome_witness :
  Client.currentPlayer Cases.twoPending = Some (createPlayerBody 4 0 0)
  /\ Client.inputBuffer
       (@Client.reconcileWithServer Worlds.emptySpace (Worlds.reported 1)
          Cases.twoPending)
     = filter (fun i => (tick i > 1)%Z) (Client.inputBuffer Cases.twoPending).
Proof.
  split; [reflexivity|].
  exact (proj1 (@reconcile_outcome Worlds.emptySpace (Worlds.reported 1)
                  Cases.twoPending _ eq_refl)).
Defined.

Lemma resting_is_grounded :
  @Client.isPlayerGrounded Worlds.emptySpace Cases.resting = true.
Proof.
  unfold Client.isPlayerGrounded. cbn.
  apply Rltb_true. rewrite Rabs_R0. lra.
Qed.

Lemma predicted_jump_is_granted_witness :
  Client.currentPlayer Cases.resting = Some Worlds.apex
  /\ @Client.isPlayerGrounded Worlds.emptySpace Cases.resting = true
  /\ @isGrounded Worlds.emptySpace Worlds.apex
       (Client.groundBodies Cases.resting) = true.
Proof.
  exact (conj eq_refl (conj resting_is_grounded
           (@predicted_jump_is_granted Worlds.emptySpace Cases.resting
              Worlds.apex eq_refl resting_is_grounded))).
Defined.

Lemma nothing_happens_without_player_witness :
  Client.currentPlayer (Client.created Worlds.level) = None
  /\ @Client.onChange Worlds.emptySpace (Worlds.reported 1)
       (Client.created Worlds.level)
     = Client.created Worlds.level.
Proof.
  split; [reflexivity|].
  exact (proj1 (proj2 (proj2 (proj2
    (@nothing_happens_without_player Worlds.emptySpace 4 "a" Worlds.noKeys
       50%float 0%float ∅ (Worlds.jumpAt 1) [] (Worlds.reported 1)
       (Client.created Worlds.level) eq_refl))))).
Defined.

(* ===================================================================== *)
(** ** The shared helpers                                                *)
(* ===================================================================== *)

(** X19. The shared [applyHorizontalMovement], called with the direction
    the flags of a command ask for (-1 for left, else 1 for right, else 0)
    and the player speed, does to a body what the loops of the room and of
    the scene do inline; with the jump of [applyJump] on top when the
    command jumps and the body is grounded. It never changes the vertical
    velocity, the position or the force. *)
Theorem horizontal_movement_is_the_inline_code grounded input body :
  let direction :=
    if left input then (-1)%R else if right input then 1%R else 0%R in
  let moved := applyHorizontalMovement body direction PLAYER_SPEED in
  x (velocity moved) = x (velocity (Server.applyQueuedInput grounded input body))
  /\ y (velocity moved) = y (velocity body)
  /\ position moved = position body
  /\ force moved = force body
  /\ id moved = id body
  /\ velocity (Server.applyQueuedInput grounded input body) = velocity moved
  /\ force (Server.applyQueuedInput grounded input body)
     = (if jump input && grounded
        then force (applyJump moved JUMP_FORCE) else force moved).
Proof.
  intros direction moved. subst moved direction.
  rewrite applyQueuedInput_velocity.
  assert (Hv : velocity (applyHorizontalMovement body
                 (if left input then (-1)%R
                  else if right input then 1%R else 0%R) PLAYER_SPEED)
               = mkVector (if left input then (- PLAYER_SPEED)%R
                           else if right input then PLAYER_SPEED else 0%R)
                          (y (velocity body))).
  { unfold applyHorizontalMovement, Body_setVelocity. cbn [velocity].
    f_equal. destruct (left input), (right input); lra. }
  rewrite Hv. cbn [x y]. repeat split.
  unfold Server.applyQueuedInput. by destruct (jump input && grounded).
Qed.

(* ===================================================================== *)
(** ** The earlier version of the room                                   *)
(* ===================================================================== *)

Lemma insertByTick_head c l :
  Forall (fun d => (tick c <= tick d)%Z) l -> Server.insertByTick c l = c :: l.
Proof.
  destruct 1 as [|d l Hd _]; [reflexivity|]. simpl.
  by rewrite (proj2 (Z.leb_le _ _) Hd).
Qed.

(** Sorting a queue that is in ascending order changes nothing. *)
Lemma sortByTick_ascending_id l : Run.ascending l -> Server.sortByTick l = l.
Proof.
  unfold Run.ascending. induction 1 as [|c l Hs IH Hc]; [reflexivity|].
  simpl. rewrite IH. by apply insertByTick_head.
Qed.

Lemma shifted_all now l :
  Forall (fun i => (tick i <= now)%Z) l -> Run.shifted now l = l.
Proof.
  induction 1 as [|i l Hi _ IH]; [reflexivity|]. simpl.
  rewrite (proj2 (Z.leb_le _ _) Hi). by rewrite IH.
Qed.

Lemma last_cons_Some {A} (j : A) (s : list A) :
  last (j :: s) = Some (default j (last s)).
Proof.
  revert j. induction s as [|k s IH]; intros j; [reflexivity|].
  change (last (j :: k :: s)) with (last (k :: s)). by rewrite (IH k).
Qed.

Lemma dequeue_served g queue body t :
  Build.dequeue g queue body t
  = (foldl (fun b i => Server.applyQueuedInput g i b) body queue,
     from_option Some t (last (tick <$> queue))).
Proof.
  revert body t. induction queue as [|i l IH]; intros body t; [reflexivity|].
  simpl. rewrite IH. f_equal.
  rewrite (last_cons_Some (tick i)). simpl.
  change (list_fmap InputData Z tick l) with (tick <$> l).
  by destruct (last (tick <$> l)).
Qed.

Section Builds.
Context `{M : Matter}.

(** X20. When the commands queued for a player are in ascending order of
    tick and all due, the current room applies them exactly as the earlier
    version did, which applied whatever was queued in arrival order
    without looking at the ticks: the two hand the same body to the
    engine, empty the queue, and the watermark of the current room is the
    tick the earlier version recorded. *)
Theorem versions_agree_on_orderly_traffic now gs (p : Server.Player) t :
  Run.ascending (Server.inputQueue p) ->
  Forall (fun i => (tick i <= now)%Z) (Server.inputQueue p) ->
  let current := Server.processInputs now gs p in
  let earlier :=
    Build.dequeue (isGrounded (Server.body p) gs) (Server.inputQueue p)
                  (Server.body p) t in
  Run.applied now p = Server.inputQueue p
  /\ Server.body current = earlier.1
  /\ Server.inputQueue current = []
  /\ from_option Some t
       (if decide (Server.inputQueue p = []) then None
        else Some (Server.lastProcessedTick current))
     = earlier.2.
Proof.
  intros Hasc Hdue.
  assert (Happ : Run.applied now p = Server.inputQueue p).
  { unfold Run.applied. rewrite sortByTick_ascending_id by exact Hasc.
    by apply shifted_all. }
  cbv zeta. rewrite dequeue_served, processInputs_applied, Happ.
  cbn [Server.body Server.inputQueue Server.lastProcessedTick fst snd].
  rewrite sortByTick_ascending_id by exact Hasc.
  rewrite drop_all. split; [reflexivity|]. split; [reflexivity|].
  split; [unfold Server.cleanQueue; reflexivity|].
  destruct (Server.inputQueue p) as [|i l] eqn:E; [reflexivity|].
  rewrite decide_False by done.
  destruct (last (tick <$> i :: l)) eqn:L; [reflexivity|].
  by apply last_None in L.
Qed.

Lemma build_processInputs gs (p : Build.Player) :
  Build.processInputs gs p
  = Build.mkPlayer (Build.p_x p) (Build.p_y p) (Build.p_vx p) (Build.p_vy p)
      (from_option Some (Build.p_tick p) (last (tick <$> Build.inputQueue p)))
      (isGrounded (Build.body p) gs) []
      (Run.served gs (Build.body p) (Build.inputQueue p)).
Proof. unfold Build.processInputs. by rewrite dequeue_served. Qed.

(** X21. A step of the earlier version of the room empties the queue of
    every player: all queued commands are applied at once, in arrival
    order and whatever their ticks; the player records the tick of the
    last command that arrived, or keeps its tick when nothing was queued;
    the set of sessions is kept. *)
Theorem earlier_step_drains_everything timeStep room sid p :
  Build.players room !! sid = Some p ->
  let gs := Build.ground room :: Build.platforms room in
  exists p',
    Build.players (Build.fixedTick timeStep room) !! sid = Some p'
    /\ Build.inputQueue p' = []
    /\ Build.p_tick p'
       = from_option Some (Build.p_tick p) (last (tick <$> Build.inputQueue p))
    /\ Build.p_isGrounded p' = isGrounded (Build.body p) gs
    /\ (exists bodies,
          Build.body p'
          = Engine_update gs bodies timeStep
              (Run.served gs (Build.body p) (Build.inputQueue p)))
    /\ dom (Build.players (Build.fixedTick timeStep room))
       = dom (Build.players room).
Proof.
  intros Hp gs. unfold Build.fixedTick. cbn [Build.players].
  rewrite !lookup_fmap, Hp. cbn [fmap option_fmap option_map].
  fold gs. rewrite !build_processInputs. eexists. split; [reflexivity|].
  cbn [Build.inputQueue Build.p_tick Build.p_isGrounded Build.body].
  repeat split.
  - eexists. reflexivity.
  - by rewrite !dom_fmap_L.
Qed.
End Builds.

Lemma orderly_ascending : Run.ascending (Server.inputQueue Cases.orderly).
Proof.
  unfold Run.ascending. simpl.
  repeat constructor; simpl; lia.
Qed.

Lemma orderly_due :
  Forall (fun i => (tick i <= 5)%Z) (Server.inputQueue Cases.orderly).
Proof. simpl. repeat constructor; simpl; lia. Qed.

Lemma versions_agree_on_orderly_traffic_witness :
  Run.ascending (Server.inputQueue Cases.orderly)
  /\ Forall (fun i => (tick i <= 5)%Z) (Server.inputQueue Cases.orderly)
  /\ Run.applied 5 Cases.orderly = Server.inputQueue Cases.orderly.
Proof.
  exact (conj orderly_ascending (conj orderly_due
           (proj1 (@versions_agree_on_orderly_traffic Worlds.emptySpace 5
                     Worlds.level Cases.orderly None
                     orderly_ascending orderly_due)))).
Defined.

Lemma earlier_step_drains_everything_witness :
  Build.players Cases.built !! "a"
    = Some (Build.mkPlayer SPAWN_X SPAWN_Y 0 0 None false
              [Worlds.leftAt 3; Worlds.jumpAt 4]
              (createPlayerBody 4 SPAWN_X SPAWN_Y))
  /\ exists p',
       Build.players
         (@Build.fixedTick Worlds.emptySpace Server.fixedTimeStep Cases.built)
       !! "a" = Some p'
       /\ Build.inputQueue p' = []
       /\ Build.p_tick p' = Some 4%Z.
Proof.
  assert (H : Build.players Cases.built !! "a"
              = Some (Build.mkPlayer SPAWN_X SPAWN_Y 0 0 None false
                        [Worlds.leftAt 3; Worlds.jumpAt 4]
                        (createPlayerBody 4 SPAWN_X SPAWN_Y)))
    by apply lookup_singleton_eq.
  split; [exact H|].
  destruct (@earlier_step_drains_everything Worlds.emptySpace
              Server.fixedTimeStep Cases.built "a" _ H)
    as (p' & H1 & H2 & H3 & _).
  exists p'. split; [exact H1|]. split; [exact H2 | exact H3].
Defined.

(** X10. A fixed step of the room does not depend on the order in which
    commands of different ticks arrived: for two players with the same
    body and watermark whose queues hold the same commands, those of one
    tick in the same order, the step applies the same commands in the same
    order and leaves the same body, watermark and queue. The earlier
    version of the room, which applied its queue as it stood, did depend
    on it: "left" for tick 2 followed by "jump" for tick 1 leaves the
    horizontal velocity at 0, the other order leaves it at minus the
    speed. *)
Theorem arrival_order_is_irrelevant `{M : Matter} now gs p1 p2 grounded body :
  Run.samePlayer p1 p2 ->
  Run.applied now p1 = Run.applied now p2
  /\ Server.body (Server.processInputs now gs p1)
     = Server.body (Server.processInputs now gs p2)
  /\ Server.lastProcessedTick (Server.processInputs now gs p1)
     = Server.lastProcessedTick (Server.processInputs now gs p2)
  /\ Server.inputQueue (Server.processInputs now gs p1)
     = Server.inputQueue (Server.processInputs now gs p2)
  /\ x (velocity
          (Build.dequeue grounded [Worlds.leftAt 2; Worlds.jumpAt 1]
                         body None).1) = 0%R
  /\ x (velocity
          (Build.dequeue grounded [Worlds.jumpAt 1; Worlds.leftAt 2]
                         body None).1) = (- PLAYER_SPEED)%R.
Proof.
  intros Hsame.
  destruct (processInputs_samePlayer now gs p1 p2 Hsame) as (_ & Hw & Hq & Hb).
  split.
  { unfold Run.applied.
    by rewrite (sortByTick_sameCommands _ _ (proj2 (proj2 Hsame))). }
  split; [exact Hb|]. split; [exact Hw|]. split; [exact Hq|].
  rewrite !dequeue_served. cbn [fst foldl].
  by rewrite !applyQueuedInput_velocity.
Qed.

Lemma arrival_order_is_irrelevant_witness :
  Run.samePlayer Cases.leftFirst Cases.jumpFirst
  /\ Server.inputQueue Cases.leftFirst <> Server.inputQueue Cases.jumpFirst
  /\ Run.applied 5 Cases.leftFirst = Run.applied 5 Cases.jumpFirst.
Proof.
  assert (H : Run.samePlayer Cases.leftFirst Cases.jumpFirst).
  { split; [reflexivity|]. split; [reflexivity|].
    apply two_orders_sameCommands. }
  split; [exact H|]. split; [vm_compute; congruence|].
  exact (proj1 (@arrival_order_is_irrelevant Worlds.emptySpace 5 Worlds.level
                  Cases.leftFirst Cases.jumpFirst true Worlds.apex H)).
Defined.

(* ===================================================================== *)
(** ** The rooms of the template                                         *)
(* ===================================================================== *)

Lemma part4_dequeue queue px py t :
  (Part4.dequeue queue px py t).1.1
    = (px + 2 * IZR (foldr (fun i acc => (Part4.dx i + acc)%Z) 0%Z queue))%R
  /\ (Part4.dequeue queue px py t).1.2
     = (py + 2 * IZR (foldr (fun i acc => (Part4.dy i + acc)%Z) 0%Z queue))%R
  /\ (Part4.dequeue queue px py t).2
     = from_option Some t (last (Part4.tick <$> queue)).
Proof.
  revert px py t. induction queue as [|i l IH]; intros px py t.
  - simpl. repeat split; lra.
  - cbn [Part4.dequeue foldr]. destruct (IH
      (if Part4.left i then (px - 2)%R
       else if Part4.right i then (px + 2)%R else px)
      (if Part4.up i then (py - 2)%R
       else if Part4.down i then (py + 2)%R else py)
      (Some (Part4.tick i))) as (Hx & Hy & Ht).
    rewrite Hx, Hy, Ht, !plus_IZR. unfold Part4.dx, Part4.dy.
    split; [|split].
    + destruct (Part4.left i), (Part4.right i); lra.
    + destruct (Part4.up i), (Part4.down i); lra.
    + rewrite fmap_cons, (last_cons_Some (Part4.tick i)). simpl.
      change (list_fmap Part4.Input Z Part4.tick l) with (Part4.tick <$> l).
      by destruct (last (Part4.tick <$> l)).
Qed.

Lemma part4_dx_bound queue :
  (Rabs (IZR (foldr (fun i acc => (Part4.dx i + acc)%Z) 0%Z queue))
     <= INR (length queue))%R.
Proof.
  rewrite <- abs_IZR, INR_IZR_INZ. apply IZR_le.
  induction queue as [|i l IH]; [simpl; lia|].
  cbn [foldr length]. unfold Part4.dx at 1.
  destruct (Part4.left i), (Part4.right i); lia.
Qed.

(** X22. A fixed step of Part4Room empties the queue of every player and
    applies every queued input, in arrival order: the player moves by two
    units per input along each axis, to the left when the input says left
    (also when it says right too), else to the right when it says right;
    so it never moves by more than two units per queued input. The player
    records the tick of the input that arrived last, whatever the ticks
    of the others. *)
Theorem part4_step_applies_the_queue timeStep state sid p :
  Part4.players state !! sid = Some p ->
  exists p',
    Part4.players (Part4.fixedTick timeStep state) !! sid = Some p'
    /\ Part4.inputQueue p' = []
    /\ Part4.x p'
       = (Part4.x p
          + 2 * IZR (foldr (fun i acc => (Part4.dx i + acc)%Z) 0%Z
                           (Part4.inputQueue p)))%R
    /\ Part4.y p'
       = (Part4.y p
          + 2 * IZR (foldr (fun i acc => (Part4.dy i + acc)%Z) 0%Z
                           (Part4.inputQueue p)))%R
    /\ (Rabs (Part4.x p' - Part4.x p)
          <= 2 * INR (length (Part4.inputQueue p)))%R
    /\ Part4.p_tick p'
       = from_option Some (Part4.p_tick p)
                     (last (Part4.tick <$> Part4.inputQueue p)).
Proof.
  intros Hp. unfold Part4.fixedTick. cbn [Part4.players].
  rewrite lookup_fmap, Hp. cbn [fmap option_fmap option_map].
  destruct (part4_dequeue (Part4.inputQueue p) (Part4.x p) (Part4.y p)
              (Part4.p_tick p)) as (Hx & Hy & Ht).
  destruct (Part4.dequeue _ _ _ _) as [[px py] t]. cbn [fst snd] in *.
  eexists. split; [reflexivity|]. cbn [Part4.inputQueue Part4.x Part4.y
                                        Part4.p_tick].
  split; [reflexivity|]. split; [exact Hx|]. split; [exact Hy|].
  split; [|exact Ht]. rewrite Hx.
  pose proof (part4_dx_bound (Part4.inputQueue p)) as Hb.
  replace (Part4.x p + 2 * IZR _ - Part4.x p)%R
    with (2 * IZR (foldr (fun i acc => (Part4.dx i + acc)%Z) 0%Z
                         (Part4.inputQueue p)))%R by lra.
  rewrite Rabs_mult, (Rabs_right 2) by lra. lra.
Qed.

Lemma part4_step_applies_the_queue_witness :
  Part4.players Cases.part4 !! "a"
    = Some (Part4.mkPlayer 10 20 None
              [Part4.mkInput false true false false 7;
               Part4.mkInput false true true false 3;
               Part4.mkInput true true false true 5])
  /\ exists p',
       Part4.players (Part4.fixedTick Part4.fixedTimeStep Cases.part4) !! "a"
         = Some p'
       /\ Part4.inputQueue p' = []
       /\ Part4.p_tick p' = Some 5%Z.
Proof.
  assert (H : Part4.players Cases.part4 !! "a"
              = Some (Part4.mkPlayer 10 20 None
                        [Part4.mkInput false true false false 7;
                         Part4.mkInput false true true false 3;
                         Part4.mkInput true true false true 5]))
    by apply lookup_singleton_eq.
  split; [exact H|].
  destruct (part4_step_applies_the_queue Part4.fixedTimeStep Cases.part4
              "a" _ H) as (p' & H1 & H2 & _ & _ & _ & H3).
  exists p'. split; [exact H1|]. split; [exact H2 | exact H3].
Defined.

(** X23. In Part4Room the handler of an input fails (a TypeError on the
    missing player) exactly when the session has no player. In Part1Room
    it fails exactly when the session has no player and the input sets at
    least one flag: an input with no flag set never touches the player, so
    the handler returns and the room is unchanged. When the session has a
    player, both handlers succeed and leave every other player as it was.
    The platformer room tests for the player instead and never fails. *)
Theorem template_rooms_fail_without_player sid sid' i1 i4 s1 s4 :
  let flagged :=
    Part1.left i1 || Part1.right i1 || Part1.up i1 || Part1.down i1 in
  (Part1.onMessage0 sid i1 s1 = None
   <-> Part1.players s1 !! sid = None /\ flagged = true)
  /\ (Part1.players s1 !! sid = None -> flagged = false ->
      Part1.onMessage0 sid i1 s1 = Some s1)
  /\ (Part4.onMessage0 sid i4 s4 = None <-> Part4.players s4 !! sid = None)
  /\ (sid' <> sid ->
      from_option (fun s => Part1.players s !! sid' = Part1.players s1 !! sid')
                  True (Part1.onMessage0 sid i1 s1)
      /\ from_option
           (fun s => Part4.players s !! sid' = Part4.players s4 !! sid')
           True (Part4.onMessage0 sid i4 s4)).
Proof.
  intros flagged. subst flagged. unfold Part1.onMessage0, Part4.onMessage0.
  destruct (Part1.players s1 !! sid) eqn:E1;
    destruct (Part4.players s4 !! sid) eqn:E4;
    destruct (Part1.left i1 || Part1.right i1 || Part1.up i1 || Part1.down i1);
    (split; [split; [done | by intros [? ?]]|]);
    (split; [done|]); (split; [done|]); intros Hne; simpl;
    rewrite ?lookup_insert_ne by done; done.
Qed.

(** X24. In Part1Room an input acts at once. For an input that asks for
    at most one direction per axis, the opposite input undoes it: the
    player is back at the position it had, and no other player has moved.
    With both directions of an axis set, left and up take precedence. *)
Theorem part1_opposite_input_undoes sid input state p :
  Part1.players state !! sid = Some p ->
  Part1.left input && Part1.right input = false ->
  Part1.up input && Part1.down input = false ->
  let opposite :=
    Part1.mkInput (Part1.right input) (Part1.left input)
                  (Part1.down input) (Part1.up input) in
  exists s1 s2 p2,
    Part1.onMessage0 sid input state = Some s1
    /\ Part1.onMessage0 sid opposite s1 = Some s2
    /\ Part1.players s2 !! sid = Some p2
    /\ Part1.x p2 = Part1.x p /\ Part1.y p2 = Part1.y p
    /\ (forall sid', sid' <> sid ->
        Part1.players s2 !! sid' = Part1.players state !! sid')
    /\ Part1.x (Part1.move (Part1.mkInput true true true true) p)
       = (Part1.x p - 2)%R
    /\ Part1.y (Part1.move (Part1.mkInput true true true true) p)
       = (Part1.y p - 2)%R.
Proof.
  intros Hp Hh Hv opposite. unfold Part1.onMessage0. rewrite Hp.
  eexists. eexists. eexists. split; [reflexivity|].
  cbn [Part1.players]. rewrite lookup_insert_eq.
  split; [reflexivity|]. cbn [Part1.players]. rewrite lookup_insert_eq.
  split; [reflexivity|]. subst opposite. unfold Part1.move.
  cbn [Part1.left Part1.right Part1.up Part1.down Part1.x Part1.y].
  split; [|split; [|split; [|split; reflexivity]]].
  - destruct (Part1.left input), (Part1.right input); try done; lra.
  - destruct (Part1.up input), (Part1.down input); try done; lra.
  - intros sid' Hne. by rewrite !lookup_insert_ne.
Qed.

Lemma part1_opposite_input_undoes_witness :
  Part1.players Cases.part1 !! "a" = Some (Part1.mkPlayer 10 20)
  /\ true && false = false
  /\ false && true = false
  /\ exists s1 s2 p2,
       Part1.onMessage0 "a" (Part1.mkInput true false false true) Cases.part1
         = Some s1
       /\ Part1.onMessage0 "a" (Part1.mkInput false true true false) s1
          = Some s2
       /\ Part1.players s2 !! "a" = Some p2
       /\ Part1.x p2 = 10%R /\ Part1.y p2 = 20%R.
Proof.
  assert (H : Part1.players Cases.part1 !! "a" = Some (Part1.mkPlayer 10 20))
    by apply lookup_singleton_eq.
  split; [exact H|]. split; [reflexivity|]. split; [reflexivity|].
  destruct (part1_opposite_input_undoes "a"
              (Part1.mkInput true false false true) Cases.part1 _ H
              eq_refl eq_refl)
    as (s1 & s2 & p2 & H1 & H2 & H3 & Hx & Hy & _).
  exists s1, s2, p2. repeat split; assumption.
Defined.

(** X25. In both template rooms a join places the player inside the map:
    with the two random numbers in [0, 1) and a map of positive size, the
    coordinates are not negative and stay below the width and the height
    of the map; the player of Part4Room starts with an empty queue and no
    tick, and the other players are untouched. *)
Theorem template_join_spawns_inside_map sid (u v : R) s1 s4 :
  (0 <= u < 1)%R -> (0 <= v < 1)%R ->
  (0 < Part1.mapWidth s1)%R -> (0 < Part1.mapHeight s1)%R ->
  (0 < Part4.mapWidth s4)%R -> (0 < Part4.mapHeight s4)%R ->
  (exists p,
     Part1.players (Part1.onJoin sid u v s1) !! sid = Some p
     /\ (0 <= Part1.x p < Part1.mapWidth s1)%R
     /\ (0 <= Part1.y p < Part1.mapHeight s1)%R)
  /\ (exists p,
        Part4.players (Part4.onJoin sid u v s4) !! sid = Some p
        /\ (0 <= Part4.x p < Part4.mapWidth s4)%R
        /\ (0 <= Part4.y p < Part4.mapHeight s4)%R
        /\ Part4.inputQueue p = [] /\ Part4.p_tick p = None)
  /\ Part1.players (Part1.onLeave sid (Part1.onJoin sid u v s1)) !! sid = None
  /\ Part4.players (Part4.onLeave sid (Part4.onJoin sid u v s4)) !! sid = None.
Proof.
  intros Hu Hv W1 H1 W4 H4.
  split; [|split; [|split]].
  - eexists. unfold Part1.onJoin. cbn [Part1.players].
    rewrite lookup_insert_eq. split; [reflexivity|]. simpl. split; nra.
  - eexists. unfold Part4.onJoin. cbn [Part4.players].
    rewrite lookup_insert_eq. split; [reflexivity|]. simpl.
    repeat split; nra.
  - apply lookup_delete_eq.
  - apply lookup_delete_eq.
Qed.

Lemma template_join_spawns_inside_map_witness :
  (0 <= 1 / 2 < 1)%R /\ (0 <= 1 / 4 < 1)%R
  /\ (0 < Part1.mapWidth Part1.onCreate)%R
  /\ (0 < Part1.mapHeight Part1.onCreate)%R
  /\ (0 < Part4.mapWidth Part4.onCreate)%R
  /\ (0 < Part4.mapHeight Part4.onCreate)%R
  /\ exists p,
       Part1.players (Part1.onJoin "a" (1 / 2) (1 / 4) Part1.onCreate) !! "a"
         = Some p
       /\ (0 <= Part1.x p < Part1.mapWidth Part1.onCreate)%R
       /\ (0 <= Part1.y p < Part1.mapHeight Part1.onCreate)%R.
Proof.
  assert (Hu : (0 <= 1 / 2 < 1)%R) by lra.
  assert (Hv : (0 <= 1 / 4 < 1)%R) by lra.
  assert (W1 : (0 < Part1.mapWidth Part1.onCreate)%R) by (simpl; lra).
  assert (H1 : (0 < Part1.mapHeight Part1.onCreate)%R) by (simpl; lra).
  assert (W4 : (0 < Part4.mapWidth Part4.onCreate)%R) by (simpl; lra).
  assert (H4 : (0 < Part4.mapHeight Part4.onCreate)%R) by (simpl; lra).
  exact (conj Hu (conj Hv (conj W1 (conj H1 (conj W4 (conj H4
           (proj1 (template_join_spawns_inside_map "a" (1 / 2) (1 / 4)
                     Part1.onCreate Part4.onCreate Hu Hv W1 H1 W4 H4)))))))).
Defined.

(* ===================================================================== *)
(** ** Commands that wait, and the tick offset                           *)
(* ===================================================================== *)

Section Waiting.
Context `{M : Matter}.

(** X26. A queued command stamped with a tick the room has not reached
    waits in the queue, untouched, through every step whose tick is below
    its stamp; the step that reaches the stamp applies it and removes it
    from the queue. A command whose stamp is already reached is applied by
    the very next step. *)
Theorem future_command_waits_for_its_tick (n : nat) room sid i :
  i ∈ Run.queued sid room ->
  (Server.currentTick room + Z.of_nat n < tick i)%Z ->
  let later := Nat.iter n (Server.fixedTick Server.fixedTimeStep) room in
  i ∈ Run.queued sid later
  /\ Server.currentTick later = (Server.currentTick room + Z.of_nat n)%Z
  /\ ((tick i <= Server.currentTick later + 1)%Z ->
      i ∈ Run.appliedNext sid later
      /\ i ∉ Run.queued sid (Server.fixedTick Server.fixedTimeStep later)).
Proof.
  intros Hin Hlt. cbv zeta.
  assert (Hq : i ∈ Run.queued sid
                     (Nat.iter n (Server.fixedTick Server.fixedTimeStep) room)).
  { revert room Hin Hlt. induction n as [|n IH]; intros room Hin Hlt.
    - exact Hin.
    - rewrite Nat.iter_succ_r. apply IH.
      + rewrite fixedTick_queued. apply list_elem_of_filter.
        split; [lia|]. by rewrite sortByTick_perm.
      + cbn [Server.fixedTick Server.currentTick]. lia. }
  split; [exact Hq|]. split; [apply iter_fixedTick_currentTick|].
  intros Hdue. split.
  - destruct (appliedNext_sorted_due sid
                (Nat.iter n (Server.fixedTick Server.fixedTimeStep) room))
      as [_ Hperm].
    rewrite Hperm. apply list_elem_of_filter. by split.
  - rewrite fixedTick_queued. intros Hc.
    apply list_elem_of_filter in Hc as [Hc _]. lia.
Qed.
End Waiting.

Lemma future_command_waits_for_its_tick_witness :
  let room := Server.onMessage0 "a" (Worlds.jumpAt 3) Worlds.joined in
  Worlds.jumpAt 3 ∈ Run.queued "a" room
  /\ (Server.currentTick room + Z.of_nat 2 < tick (Worlds.jumpAt 3))%Z
  /\ Worlds.jumpAt 3
       ∈ Run.queued "a"
           (Nat.iter 2
              (@Server.fixedTick Worlds.emptySpace Server.fixedTimeStep) room).
Proof.
  intros room.
  assert (H1 : Worlds.jumpAt 3 ∈ Run.queued "a" room).
  { subst room. unfold Run.queued, Server.onMessage0, Worlds.joined,
      Server.onJoin. cbn [Server.players]. rewrite lookup_insert_eq.
    cbn [Server.players]. rewrite lookup_insert_eq. simpl.
    apply list_elem_of_singleton. reflexivity. }
  assert (H2 : (Server.currentTick room + Z.of_nat 2
                < tick (Worlds.jumpAt 3))%Z) by (vm_compute; reflexivity).
  exact (conj H1 (conj H2
           (proj1 (@future_command_waits_for_its_tick Worlds.emptySpace 2
                     room "a" (Worlds.jumpAt 3) H1 H2)))).
Defined.

Lemma holdsFrom_spec check n r :
  Cases.holdsFrom check n r = true ->
  forall z, (r <= z < r + Z.of_nat n)%Z -> check z = true.
Proof.
  revert r. induction n as [|n IH]; intros r H z Hz; [lia|].
  cbn [Cases.holdsFrom] in H. apply andb_true_iff in H as [H0 H1].
  destruct (decide (z = r)) as [->|Hne]; [exact H0|].
  apply (IH (r + 1)%Z H1). lia.
Qed.

(** Every round trip from 0 to 10000 ms, evaluated. *)
Lemma offsets_evaluated :
  Cases.holdsFrom Cases.offsetTracks (Z.to_nat 10001) 0 = true.
Proof. vm_compute. reflexivity. Qed.

Lemma offsetOf_tracks rtt :
  (0 <= rtt <= 10000)%Z ->
  (Z.abs (100 * Cases.offsetOf rtt - 3 * rtt) <= 50)%Z
  /\ (Cases.offsetOf rtt <= Cases.offsetOf (rtt + 1))%Z.
Proof.
  intros H.
  assert (Hin : (0 <= rtt < 0 + Z.of_nat (Z.to_nat 10001))%Z)
    by (rewrite Z2Nat.id; lia).
  pose proof (holdsFrom_spec _ _ _ offsets_evaluated rtt Hin) as Hc.
  unfold Cases.offsetTracks in Hc. apply andb_true_iff in Hc as [H1 H2].
  split; [by apply Z.leb_le | by apply Z.leb_le].
Qed.

Lemma offsetOf_monotone (d : nat) rtt :
  (0 <= rtt)%Z -> (rtt + Z.of_nat d <= 10001)%Z ->
  (Cases.offsetOf rtt <= Cases.offsetOf (rtt + Z.of_nat d))%Z.
Proof.
  intros H0. induction d as [|d IH]; intros Hd.
  - replace (rtt + Z.of_nat 0)%Z with rtt by lia. lia.
  - etransitivity; [apply IH; lia|].
    replace (rtt + Z.of_nat (S d))%Z with (rtt + Z.of_nat d + 1)%Z by lia.
    apply offsetOf_tracks. lia.
Qed.

(** X27. For round trips of up to ten seconds (a ping is sent every five)
    the tick offset the scene derives from a pong follows the round trip:
    it is a whole number within one half of 3 * rtt / 100 ticks, so it is
    never negative, and a later pong for the same ping never gives a
    smaller offset; a pong read at the time of the ping gives the offset
    0. The pong changes neither the tick of the scene, nor its buffer, nor
    the local player. *)
Theorem tick_offset_grows_with_round_trip (t1 t2 : Z) scene :
  (Client.lastPingTime scene <= t1)%Z ->
  (t1 <= t2)%Z ->
  (t2 <= Client.lastPingTime scene + 10000)%Z ->
  (Client.serverTickOffset (Client.onPong t1 scene)
     <= Client.serverTickOffset (Client.onPong t2 scene))%Z
  /\ (Z.abs (100 * Client.serverTickOffset (Client.onPong t1 scene)
             - 3 * Client.rtt (Client.onPong t1 scene)) <= 50)%Z
  /\ (0 <= Client.serverTickOffset (Client.onPong t1 scene))%Z
  /\ Client.serverTickOffset
       (Client.onPong (Client.lastPingTime scene) scene) = 0%Z
  /\ Client.currentTick (Client.onPong t1 scene) = Client.currentTick scene
  /\ Client.inputBuffer (Client.onPong t1 scene) = Client.inputBuffer scene
  /\ Client.currentPlayer (Client.onPong t1 scene)
     = Client.currentPlayer scene.
Proof.
  intros H0 Hle Hmax.
  cbn [Client.onPong Client.serverTickOffset Client.rtt Client.currentTick
       Client.inputBuffer Client.currentPlayer].
  fold (Cases.offsetOf (t1 - Client.lastPingTime scene)).
  fold (Cases.offsetOf (t2 - Client.lastPingTime scene)).
  fold (Cases.offsetOf (Client.lastPingTime scene - Client.lastPingTime scene)).
  set (r1 := (t1 - Client.lastPingTime scene)%Z).
  destruct (offsetOf_tracks r1 ltac:(lia)) as [Hnear _].
  split; [|split; [exact Hnear|split; [lia|split]]].
  - replace (t2 - Client.lastPingTime scene)%Z
      with (r1 + Z.of_nat (Z.to_nat (t2 - t1)))%Z by lia.
    apply offsetOf_monotone; lia.
  - replace (Client.lastPingTime scene - Client.lastPingTime scene)%Z
      with 0%Z by lia.
    vm_compute. reflexivity.
  - repeat split.
Qed.

Lemma tick_offset_grows_with_round_trip_witness :
  (Client.lastPingTime Cases.resting <= 40)%Z
  /\ (40 <= 250)%Z
  /\ (250 <= Client.lastPingTime Cases.resting + 10000)%Z
  /\ (Client.serverTickOffset (Client.onPong 40 Cases.resting)
        <= Client.serverTickOffset (Client.onPong 250 Cases.resting))%Z.
Proof.
  assert (H0 : (Client.lastPingTime Cases.resting <= 40)%Z)
    by (vm_compute; discriminate).
  assert (H1 : (40 <= 250)%Z) by lia.
  assert (H2 : (250 <= Client.lastPingTime Cases.resting + 10000)%Z)
    by (vm_compute; discriminate).
  exact (conj H0 (conj H1 (conj H2
           (proj1 (tick_offset_grows_with_round_trip 40 250 Cases.resting
                     H0 H1 H2))))).
Defined.
